(** * Boda-Box: crash detection, evidence sealing, state machine and offline queue

    A shallow embedding of the core of the Boda-Box application
    (hooks/useSensorFusion.ts, utils/evidenceCapture.ts,
    components/BodaBox.tsx, components/states/*.tsx and
    hooks/useOfflineQueue.ts) together with the properties of its
    design document that can be settled on the code.

    Conventions.
    - A JavaScript [number] holding a sensor value is an IEEE-754 binary64
      value, modelled by Rocq's primitive [float].
    - [Date.now()] is an integral number of milliseconds, modelled by [Z];
      every call of [Date.now()] in the source is an explicit argument of
      the embedded function.
    - A React state cell or ref is a field of an explicit state record. *)

From Stdlib Require Import ZArith List Bool Lia Floats String Ascii DecimalString Sorted.
Open Scope list_scope.
Import ListNotations.

(* ================================================================== *)
(** ** hooks/useSensorFusion.ts                                        *)
(* ================================================================== *)

Module SensorFusion.

Record SensorReading : Set := mkReading {
  timestamp     : Z;
  accelerationX : float;
  accelerationY : float;
  accelerationZ : float;
  rotationAlpha : float;
  rotationBeta  : float;
  rotationGamma : float
}.

Record SensorFusionState : Set := mkState {
  isCrashDetected : bool;
  isMonitoring    : bool;
  lastReading     : option SensorReading
}.

Definition BUFFER_SIZE : nat := 100.
Definition HIGH_G_THRESHOLD : float := 4.0%float.
Definition SUSTAINED_DURATION_MS : Z := 100.
Definition ROTATION_THRESHOLD : float := 90%float.

(** *** The pieces of the JavaScript [Math] object used by the hook *)

Definition Math_sqrt : float -> float := PrimFloat.sqrt.
Definition Math_abs : float -> float := PrimFloat.abs.

Definition is_pos_zero (x : float) : bool :=
  PrimFloat.is_zero x && negb (PrimFloat.get_sign x).
Definition is_neg_zero (x : float) : bool :=
  PrimFloat.is_zero x && PrimFloat.get_sign x.

(** One round of the loop of ECMAScript's [Math.max]: [number] replaces
    [highest] when it is larger, or when it is [+0] against [-0]. *)
Definition max_step (highest number : float) : float :=
  if is_pos_zero number && is_neg_zero highest then number
  else if PrimFloat.ltb highest number then number
  else highest.

(** [Math.max(...values)]: [NaN] as soon as one argument is [NaN],
    otherwise the largest argument, starting from [-Infinity]. *)
Definition Math_max (values : list float) : float :=
  if existsb PrimFloat.is_nan values then PrimFloat.nan
  else fold_left max_step values PrimFloat.neg_infinity.

(** *** The hook's functions *)

Definition calculateMagnitude (x y z : float) : float :=
  Math_sqrt (x * x + y * y + z * z)%float.

Definition calculateRotationChange (readings : list SensorReading) : float :=
  match readings with
  | [] => 0%float
  | first :: _ =>
      if (List.length readings <? 2)%nat then 0%float
      else
        let last := List.last readings first in
        let alphaChange := Math_abs (rotationAlpha last - rotationAlpha first)%float in
        let betaChange := Math_abs (rotationBeta last - rotationBeta first)%float in
        let gammaChange := Math_abs (rotationGamma last - rotationGamma first)%float in
        Math_max [alphaChange; betaChange; gammaChange]
  end.

(** [buffer.filter(reading => now - reading.timestamp <= SUSTAINED_DURATION_MS)] *)
Definition recentReadings (now : Z) (buffer : list SensorReading) : list SensorReading :=
  filter (fun reading => (now - timestamp reading <=? SUSTAINED_DURATION_MS)%Z) buffer.

Definition isHighG (reading : SensorReading) : bool :=
  let magnitude :=
    calculateMagnitude (accelerationX reading) (accelerationY reading)
                       (accelerationZ reading) in
  PrimFloat.ltb HIGH_G_THRESHOLD magnitude.

Definition highGReadings (recent : list SensorReading) : list SensorReading :=
  filter isHighG recent.

(** [analyzeBuffer]; [now] is the value [Date.now()] returns inside it and
    [buffer] is [sensorBufferRef.current]. *)
Definition analyzeBuffer (now : Z) (buffer : list SensorReading) : bool :=
  if (List.length buffer <? 10)%nat then false
  else
    let recent := recentReadings now buffer in
    if (List.length recent <? 5)%nat then false
    else
      let highG := highGReadings recent in
      if (List.length highG <? 3)%nat then false
      else
        let rotationChange := calculateRotationChange recent in
        if PrimFloat.ltb rotationChange ROTATION_THRESHOLD then false
        else true.

(** The part of a [DeviceMotionEvent] the handler reads.  Every component
    may be [null]. *)
Record Vec3 : Set := mkVec3 { c1 : option float; c2 : option float; c3 : option float }.

Record DeviceMotionEvent : Set := mkEvent {
  acceleration : option Vec3;
  rotationRate : option Vec3
}.

(** [v || 0] on a [number | null]: [null], [NaN], [+0] and [-0] are falsy. *)
Definition or_zero (v : option float) : float :=
  match v with
  | None => 0%float
  | Some x => if PrimFloat.is_nan x || PrimFloat.is_zero x then 0%float else x
  end.

(** [push] followed by the conditional [shift] of [handleMotionEvent]. *)
Definition pushReading (reading : SensorReading) (buffer : list SensorReading)
  : list SensorReading :=
  let pushed := buffer ++ [reading] in
  if (BUFFER_SIZE <? List.length pushed)%nat then tl pushed else pushed.

(** The session: the ref [sensorBufferRef] and the React state. *)
Record Session : Set := mkSession {
  sensorBuffer : list SensorReading;
  state        : SensorFusionState
}.

Definition initialSession : Session :=
  mkSession [] (mkState false false None).

(** [handleMotionEvent]; [t_read] is the [Date.now()] stamped on the
    reading, [t_analyze] the later [Date.now()] read by [analyzeBuffer]. *)
Definition handleMotionEvent (t_read t_analyze : Z) (event : DeviceMotionEvent)
    (s : Session) : Session :=
  match acceleration event, rotationRate event with
  | Some acc, Some rot =>
      let reading :=
        mkReading t_read
                  (or_zero (c1 acc)) (or_zero (c2 acc)) (or_zero (c3 acc))
                  (or_zero (c1 rot)) (or_zero (c2 rot)) (or_zero (c3 rot)) in
      let buffer := pushReading reading (sensorBuffer s) in
      let st := state s in
      let st1 := mkState (isCrashDetected st) (isMonitoring st) (Some reading) in
      let st2 :=
        if analyzeBuffer t_analyze buffer
        then mkState true (isMonitoring st1) (lastReading st1)
        else st1 in
      mkSession buffer st2
  | _, _ => s
  end.

(** [startMonitoring] once permission is granted. *)
Definition startMonitoring (s : Session) : Session :=
  mkSession (sensorBuffer s)
            (mkState false true (lastReading (state s))).

Definition stopMonitoring (s : Session) : Session :=
  mkSession []
            (mkState (isCrashDetected (state s)) false (lastReading (state s))).

Definition resetCrashDetection (s : Session) : Session :=
  mkSession []
            (mkState false (isMonitoring (state s)) (lastReading (state s))).

(** What can happen to a monitoring session. *)
Inductive Action : Set :=
| Motion (t_read t_analyze : Z) (event : DeviceMotionEvent)
| Start
| Stop
| Reset.

Definition perform (s : Session) (a : Action) : Session :=
  match a with
  | Motion t_read t_analyze event => handleMotionEvent t_read t_analyze event s
  | Start => startMonitoring s
  | Stop => stopMonitoring s
  | Reset => resetCrashDetection s
  end.

Definition run (actions : list Action) : Session :=
  fold_left perform actions initialSession.

End SensorFusion.

(* ================================================================== *)
(** ** Platform services used by utils/evidenceCapture.ts              *)
(* ================================================================== *)

(** A JavaScript string is represented by the UTF-8 encoding of its code
    points, one [ascii] per byte, so that [TextEncoder.encode] is the
    list of its bytes. *)

Module Text.

Definition LF : string := String "010"%char EmptyString.

Fixpoint join (separator : string) (parts : list string) : string :=
  match parts with
  | [] => EmptyString
  | [p] => p
  | p :: rest => p ++ separator ++ join separator rest
  end%string.

Fixpoint spaces (n : nat) : string :=
  match n with
  | O => EmptyString
  | S n' => String " "%char (spaces n')
  end.

Definition isEmpty (s : string) : bool :=
  match s with EmptyString => true | String _ _ => false end.

(** Decimal rendering of an integral number, as [Number::toString] prints
    integers of magnitude below 1e21. *)
Definition Z_toString (z : Z) : string :=
  NilZero.string_of_int (Z.to_int z).

Definition hexDigit (d : Z) : ascii :=
  ascii_of_N (Z.to_N (if d <? 10 then 48 + d else 87 + d))%Z.

(** [b.toString(16).padStart(2, '0')] for a byte [b]. *)
Definition hex2 (b : Z) : string :=
  String (hexDigit (b / 16)) (String (hexDigit (b mod 16)) EmptyString).

(** [new TextEncoder().encode(data)] *)
Definition TextEncoder_encode (data : string) : list Z :=
  map (fun c => Z.of_N (N_of_ascii c)) (list_ascii_of_string data).

End Text.

(** [crypto.subtle.digest('SHA-256', bytes)], FIPS 180-4, on 32-bit words
    held in [Z] with the wrap-around written out. *)
Module SHA256.
Local Open Scope Z_scope.

Definition word (x : Z) : Z := Z.land x 0xffffffff.
Definition add32 (x y : Z) : Z := word (x + y).
Definition rotr (n x : Z) : Z :=
  Z.lor (Z.shiftr x n) (word (Z.shiftl x (32 - n))).
Definition shr (n x : Z) : Z := Z.shiftr x n.
Definition xor3 (x y z : Z) : Z := Z.lxor (Z.lxor x y) z.

Definition Ch (x y z : Z) : Z :=
  Z.lxor (Z.land x y) (Z.land (Z.lxor x 0xffffffff) z).
Definition Maj (x y z : Z) : Z :=
  xor3 (Z.land x y) (Z.land x z) (Z.land y z).
Definition Sigma0 (x : Z) : Z := xor3 (rotr 2 x) (rotr 13 x) (rotr 22 x).
Definition Sigma1 (x : Z) : Z := xor3 (rotr 6 x) (rotr 11 x) (rotr 25 x).
Definition sigma0 (x : Z) : Z := xor3 (rotr 7 x) (rotr 18 x) (shr 3 x).
Definition sigma1 (x : Z) : Z := xor3 (rotr 17 x) (rotr 19 x) (shr 10 x).

(** The constants of FIPS 180-4 are derived as the standard defines
    them: the first 32 bits of the fractional parts of the cube roots
    ([K]) and of the square roots ([H0]) of the first primes. *)
Definition primes : list Z :=
  [2; 3; 5; 7; 11; 13; 17; 19; 23; 29; 31; 37; 41; 43; 47; 53; 59; 61; 67;
   71; 73; 79; 83; 89; 97; 101; 103; 107; 109; 113; 127; 131; 137; 139;
   149; 151; 157; 163; 167; 173; 179; 181; 191; 193; 197; 199; 211; 223;
   227; 229; 233; 239; 241; 251; 257; 263; 269; 271; 277; 281; 283; 293;
   307; 311].

(** The integer cube root of [n] below [2 ^ bits], one bit at a time. *)
Fixpoint cubeRoot (bits : nat) (n root : Z) : Z :=
  match bits with
  | O => root
  | S bits' =>
      let candidate := root + 2 ^ Z.of_nat bits' in
      cubeRoot bits' n
        (if candidate * candidate * candidate <=? n then candidate else root)
  end.

Definition K : list Z :=
  map (fun p => word (cubeRoot 36 (p * 2 ^ 96) 0)) primes.

Definition H0 : list Z :=
  map (fun p => word (Z.sqrt (p * 2 ^ 64))) (firstn 8 primes).

Definition bigEndian (nbytes : nat) (x : Z) : list Z :=
  map (fun i => Z.land (Z.shiftr x (8 * Z.of_nat i)) 0xff) (rev (seq 0 nbytes)).

Definition pad (message : list Z) : list Z :=
  let l := Z.of_nat (List.length message) in
  let zeros := Z.to_nat ((55 - l) mod 64) in
  (message ++ [0x80] ++ repeat 0 zeros ++ bigEndian 8 (8 * l))%list.

Fixpoint chunks (size count : nat) (bytes : list Z) : list (list Z) :=
  match count with
  | O => []
  | S count' => firstn size bytes :: chunks size count' (skipn size bytes)
  end.

Definition wordOfBytes (bytes : list Z) : Z :=
  fold_left (fun acc b => acc * 256 + b) bytes 0.

(** The message schedule, latest word first. *)
Fixpoint extend (n : nat) (w : list Z) : list Z :=
  match n with
  | O => w
  | S n' =>
      let wt := add32 (add32 (sigma1 (nth 1 w 0)) (nth 6 w 0))
                      (add32 (sigma0 (nth 14 w 0)) (nth 15 w 0)) in
      extend n' (wt :: w)
  end.

Definition schedule (block : list Z) : list Z :=
  let w16 := map wordOfBytes (chunks 4 16 block) in
  rev (extend 48 (rev w16)).

Definition Registers : Set := (Z * Z * Z * Z * Z * Z * Z * Z)%type.

Definition round (r : Registers) (kw : Z * Z) : Registers :=
  let '(a, b, c, d, e, f, g, h) := r in
  let '(k, w) := kw in
  let T1 := add32 (add32 (add32 h (Sigma1 e)) (add32 (Ch e f g) k)) w in
  let T2 := add32 (Sigma0 a) (Maj a b c) in
  (add32 T1 T2, a, b, c, add32 d T1, e, f, g).

Definition compress (hash : Registers) (block : list Z) : Registers :=
  let '(a, b, c, d, e, f, g, h) :=
    fold_left round (combine K (schedule block)) hash in
  let '(h0, h1, h2, h3, h4, h5, h6, h7) := hash in
  (add32 h0 a, add32 h1 b, add32 h2 c, add32 h3 d,
   add32 h4 e, add32 h5 f, add32 h6 g, add32 h7 h).

Definition initial : Registers :=
  (nth 0 H0 0, nth 1 H0 0, nth 2 H0 0, nth 3 H0 0,
   nth 4 H0 0, nth 5 H0 0, nth 6 H0 0, nth 7 H0 0).

Definition digest (message : list Z) : list Z :=
  let padded := pad message in
  let blocks := chunks 64 (Nat.div (List.length padded) 64) padded in
  let '(h0, h1, h2, h3, h4, h5, h6, h7) := fold_left compress blocks initial in
  flat_map (bigEndian 4) [h0; h1; h2; h3; h4; h5; h6; h7].

End SHA256.

(** [JSON.stringify] on the values a trust packet is made of (ECMAScript
    SerializeJSONProperty, SerializeJSONObject and QuoteJSONString). *)
Module JSON.
Import Text.
Local Open Scope string_scope.

Section Values.

(** The JavaScript numbers stored in a packet, and their rendering by
    [JSON.stringify] ([Number::toString] for a finite number, [null]
    otherwise), are the platform's. *)
Variable number : Type.
Variable Number_toJSON : number -> string.

#[local] Set Warnings "-register-all".
Inductive JSValue : Type :=
| JSUndefined
| JSNull
| JSInteger (z : Z)
| JSNumber (x : number)
| JSString (s : string)
| JSObject (properties : list (string * JSValue)).

Definition escape (c : ascii) : string :=
  let code := Z.of_N (N_of_ascii c) in
  if (code =? 34)%Z then String "\"%char (String "034"%char EmptyString)
  else if (code =? 92)%Z then "\\"
  else if (code =? 8)%Z then "\b"
  else if (code =? 12)%Z then "\f"
  else if (code =? 10)%Z then "\n"
  else if (code =? 13)%Z then "\r"
  else if (code =? 9)%Z then "\t"
  else if (code <? 32)%Z then "\u00" ++ hex2 code
  else String c EmptyString.

Fixpoint escapeAll (s : string) : string :=
  match s with
  | EmptyString => EmptyString
  | String c rest => escape c ++ escapeAll rest
  end.

Definition QuoteJSONString (s : string) : string :=
  String "034"%char (escapeAll s ++ String "034"%char EmptyString).

Definition wrapObject (gap indent stepback : string) (partial : list string) : string :=
  match partial with
  | [] => "{}"
  | _ :: _ =>
      if isEmpty gap then "{" ++ join "," partial ++ "}"
      else "{" ++ LF ++ indent ++ join ("," ++ LF ++ indent) partial
               ++ LF ++ stepback ++ "}"
  end.

Definition member (gap key strP : string) : string :=
  QuoteJSONString key ++ ":" ++ (if isEmpty gap then EmptyString else " ") ++ strP.

Fixpoint SerializeJSONProperty (gap indent : string) (value : JSValue)
  : option string :=
  match value with
  | JSUndefined => None
  | JSNull => Some "null"
  | JSInteger z => Some (Z_toString z)
  | JSNumber x => Some (Number_toJSON x)
  | JSString s => Some (QuoteJSONString s)
  | JSObject properties =>
      let stepback := indent in
      let indent := indent ++ gap in
      let partial :=
        (fix members (ps : list (string * JSValue)) : list string :=
           match ps with
           | [] => []
           | (key, v) :: rest =>
               match SerializeJSONProperty gap indent v with
               | None => members rest
               | Some strP => member gap key strP :: members rest
               end
           end) properties in
      Some (wrapObject gap indent stepback partial)
  end.

(** [JSON.stringify(value)] is [stringify 0 value];
    [JSON.stringify(value, null, n)] is [stringify n value]. *)
Definition stringify (space : nat) (value : JSValue) : option string :=
  SerializeJSONProperty (spaces (Nat.min 10 space)) EmptyString value.

End Values.

Arguments JSUndefined {number}.
Arguments JSNull {number}.
Arguments JSInteger {number} z.
Arguments JSNumber {number} x.
Arguments JSString {number} s.
Arguments JSObject {number} properties.
Arguments SerializeJSONProperty {number}.
Arguments stringify {number}.

End JSON.

(* ================================================================== *)
(** ** utils/evidenceCapture.ts                                        *)
(* ================================================================== *)

Module EvidenceCapture.
Import Text JSON.
Local Open Scope string_scope.

(** An awaited promise. *)
Inductive Promise (A : Type) : Type :=
| Resolved (value : A)
| Rejected (message : string).
Arguments Resolved {A} value.
Arguments Rejected {A} message.

Section Capture.

Variable number : Type.
Variable Number_toJSON : number -> string.

Record Location : Type := mkLocation {
  latitude  : option number;
  longitude : option number;
  accuracy  : option number
}.

Record Evidence : Set := mkEvidence {
  photo          : string;
  audioSignature : string
}.

Record Metadata : Set := mkMetadata {
  userAgent    : string;
  deviceInfo   : string;
  captureDelay : Z
}.

Record TrustPacket : Type := mkTrustPacket {
  eventId   : string;
  timestamp : string;
  location  : Location;
  evidence  : Evidence;
  metadata  : Metadata;
  hash      : option string
}.

(** *** What the browser answers during one capture *)

Inductive CameraOutcome : Set :=
| CameraDenied               (* [getUserMedia] rejects *)
| NoCanvasContext            (* [canvas.getContext('2d')] is null *)
| VideoError                 (* [video.onerror] fires *)
| Captured (dataURL : string).

Inductive GeolocationOutcome : Type :=
| GeolocationMissing         (* no [navigator.geolocation] *)
| GeolocationError           (* the error callback, timeout included *)
| Position (lat lon acc : number).

Inductive MicrophoneOutcome : Set :=
| MicrophoneFailed           (* [AudioContext] or [getUserMedia] throws *)
| FrequencyData (dataArray : list Z).

Record Browser : Type := mkBrowser {
  camera            : CameraOutcome;
  geolocation       : GeolocationOutcome;
  microphone        : MicrophoneOutcome;
  subtleCrypto      : bool;     (* does [crypto.subtle.digest] answer *)
  navigator_userAgent : string;
  navigator_platform  : string;
  navigator_language  : string;
  startTime         : Z;        (* [Date.now()] on entry *)
  endTime           : Z;        (* [Date.now()] after the acquisitions *)
  eventTime         : Z;        (* [Date.now()] in [generateEventId] *)
  randomSuffix      : string;   (* [Math.random().toString(36).substr(2, 9)] *)
  isoTime           : string    (* [new Date().toISOString()] *)
}.

Definition capturePhoto (b : Browser) : Promise string :=
  match camera b with
  | CameraDenied => Rejected "Camera access denied or not available"
  | NoCanvasContext => Rejected "Failed to get canvas context"
  | VideoError => Rejected "Failed to capture photo"
  | Captured dataURL => Resolved dataURL
  end.

Definition nullLocation : Location := mkLocation None None None.

Definition getCurrentLocation (b : Browser) : Promise Location :=
  match geolocation b with
  | GeolocationMissing => Resolved nullLocation
  | GeolocationError => Resolved nullLocation
  | Position lat lon acc => Resolved (mkLocation (Some lat) (Some lon) (Some acc))
  end.

Definition generateAudioSignature (b : Browser) : Promise string :=
  match microphone b with
  | MicrophoneFailed => Resolved "audio_unavailable"
  | FrequencyData dataArray =>
      Resolved (join "," (map Z_toString (firstn 32 dataArray)))
  end.

Definition generateEventId (b : Browser) : string :=
  "bodabox_" ++ Z_toString (eventTime b) ++ "_" ++ randomSuffix b.

Definition generateHash (b : Browser) (data : string) : string :=
  if subtleCrypto b then
    let dataBuffer := TextEncoder_encode data in
    let hashArray := SHA256.digest dataBuffer in
    join EmptyString (map hex2 hashArray)
  else "hash_unavailable".

(** The packet as the JavaScript object [JSON.stringify] walks; a missing
    [hash] is an absent property. *)
Definition nullable (v : option number) : JSValue number :=
  match v with
  | None => JSNull
  | Some x => JSNumber x
  end.

Definition toObject (p : TrustPacket) : JSValue number :=
  JSObject
    [ ("eventId", JSString (eventId p));
      ("timestamp", JSString (timestamp p));
      ("location", JSObject
         [ ("latitude", nullable (latitude (location p)));
           ("longitude", nullable (longitude (location p)));
           ("accuracy", nullable (accuracy (location p))) ]);
      ("evidence", JSObject
         [ ("photo", JSString (photo (evidence p)));
           ("audioSignature", JSString (audioSignature (evidence p))) ]);
      ("metadata", JSObject
         [ ("userAgent", JSString (userAgent (metadata p)));
           ("deviceInfo", JSString (deviceInfo (metadata p)));
           ("captureDelay", JSInteger (captureDelay (metadata p))) ]);
      ("hash", match hash p with
               | None => JSUndefined
               | Some h => JSString h
               end) ].

Definition JSON_stringify (space : nat) (p : TrustPacket) : string :=
  match stringify Number_toJSON space (toObject p) with
  | Some text => text
  | None => EmptyString
  end.

(** The record built in step 4 of [captureEvidence], before sealing. *)
Definition assemble (b : Browser) (photo : string) (location : Location)
    (audioSignature : string) : TrustPacket :=
  mkTrustPacket
    (generateEventId b)
    (isoTime b)
    location
    (mkEvidence photo audioSignature)
    (mkMetadata (navigator_userAgent b)
                (navigator_platform b ++ " - " ++ navigator_language b)
                (endTime b - startTime b))
    None.

(** Step 5 of [captureEvidence]. *)
Definition seal (b : Browser) (trustPacket : TrustPacket) : TrustPacket :=
  let packetString := JSON_stringify 0 trustPacket in
  let hash := generateHash b packetString in
  mkTrustPacket (eventId trustPacket) (timestamp trustPacket)
                (location trustPacket) (evidence trustPacket)
                (metadata trustPacket) (Some hash).

(** [captureEvidence]: [Promise.all] rejects as soon as one of the three
    acquisitions rejects. *)
Definition captureEvidence (b : Browser) : Promise TrustPacket :=
  match capturePhoto b, getCurrentLocation b, generateAudioSignature b with
  | Resolved photo, Resolved location, Resolved audioSignature =>
      Resolved (seal b (assemble b photo location audioSignature))
  | Rejected message, _, _ => Rejected message
  | _, Rejected message, _ => Rejected message
  | _, _, Rejected message => Rejected message
  end.

(** *** components/states/TriggeredState.tsx *)

Record TriggeredView : Type := mkView {
  isCapturing : bool;
  trustPacket : option TrustPacket;
  error       : option string
}.

Definition performCapture (b : Browser) : TriggeredView :=
  match captureEvidence b with
  | Resolved packet => mkView false (Some packet) None
  | Rejected message => mkView false None (Some message)
  end.

(** [const { hash, ...packetWithoutHash } = trustPacket] *)
Definition packetWithoutHash (p : TrustPacket) : TrustPacket :=
  mkTrustPacket (eventId p) (timestamp p) (location p) (evidence p)
                (metadata p) None.

(** [handleCopyVerification]: the text written to the clipboard, if any. *)
Definition handleCopyVerification (v : TriggeredView) : option string :=
  match trustPacket v with
  | None => None
  | Some packet => Some (JSON_stringify 2 (packetWithoutHash packet))
  end.

End Capture.

Arguments mkLocation {number}.
Arguments latitude {number}.
Arguments longitude {number}.
Arguments accuracy {number}.
Arguments mkTrustPacket {number}.
Arguments eventId {number}.
Arguments timestamp {number}.
Arguments location {number}.
Arguments evidence {number}.
Arguments metadata {number}.
Arguments hash {number}.
Arguments mkBrowser {number}.
Arguments GeolocationMissing {number}.
Arguments GeolocationError {number}.
Arguments Position {number}.
Arguments nullLocation {number}.
Arguments mkView {number}.
Arguments trustPacket {number}.
Arguments error {number}.
Arguments isCapturing {number}.
Arguments packetWithoutHash {number}.
Arguments capturePhoto {number}.
Arguments getCurrentLocation {number}.
Arguments generateAudioSignature {number}.
Arguments generateEventId {number}.
Arguments generateHash {number}.
Arguments toObject {number}.
Arguments JSON_stringify {number}.
Arguments assemble {number}.
Arguments seal {number}.
Arguments captureEvidence {number}.
Arguments performCapture {number}.
Arguments handleCopyVerification {number}.
Arguments camera {number}.
Arguments geolocation {number}.
Arguments microphone {number}.
Arguments subtleCrypto {number}.

End EvidenceCapture.

(* ================================================================== *)
(** ** components/BodaBox.tsx and components/states/ConfirmingState.tsx *)
(* ================================================================== *)

Module BodaBox.

Inductive AppState : Set := ARMED | CONFIRMING | TRIGGERED.

(** [appState] is BodaBox's state cell, [isCrashDetected] the flag of the
    sensor hook, [countdown] the state cell of the mounted
    [ConfirmingState] (meaningful while [appState] is [CONFIRMING]). *)
Record App : Set := mkApp {
  appState        : AppState;
  isCrashDetected : bool;
  countdown       : nat
}.

Definition initialApp : App := mkApp ARMED false 5.

(** [setAppState]; showing [ConfirmingState] mounts it with
    [useState(5)]. *)
Definition setAppState (next : AppState) (a : App) : App :=
  match next with
  | CONFIRMING => mkApp CONFIRMING (isCrashDetected a) 5
  | _ => mkApp next (isCrashDetected a) (countdown a)
  end.

Definition resetCrashDetection (a : App) : App :=
  mkApp (appState a) false (countdown a).

Definition handleEmergencyButton (a : App) : App :=
  match appState a with
  | ARMED => setAppState CONFIRMING a
  | _ => a
  end.

Definition handleConfirmCrash (a : App) : App := setAppState TRIGGERED a.

Definition handleCancelAlert (a : App) : App :=
  setAppState ARMED (resetCrashDetection a).

Definition handleReset (a : App) : App :=
  setAppState ARMED (resetCrashDetection a).

(** The effect "Handle automatic crash detection". *)
Definition crashEffect (a : App) : App :=
  match isCrashDetected a, appState a with
  | true, ARMED => setAppState CONFIRMING a
  | _, _ => a
  end.

(** The else branch of the countdown effect of [ConfirmingState]: at
    zero, [onConfirm()]. *)
Definition countdownEffect (a : App) : App :=
  match appState a, countdown a with
  | CONFIRMING, O => handleConfirmCrash a
  | _, _ => a
  end.

Inductive Event : Set :=
| CrashDetected      (* the sensor hook sets [isCrashDetected] *)
| EmergencyButton    (* the button of [ArmedState] *)
| CancelButton       (* the button of [ConfirmingState] *)
| TimerFired         (* the one-second timeout of [ConfirmingState] *)
| ResetButton.       (* the button of [TriggeredState] *)

(** An event reaches the handler of the component on screen: BodaBox
    renders exactly the component of [appState]. *)
Definition deliver (a : App) (e : Event) : App :=
  match e, appState a with
  | CrashDetected, _ => mkApp (appState a) true (countdown a)
  | EmergencyButton, ARMED => handleEmergencyButton a
  | CancelButton, CONFIRMING => handleCancelAlert a
  | TimerFired, CONFIRMING =>
      match countdown a with
      | O => a
      | S _ => mkApp (appState a) (isCrashDetected a) (countdown a - 1)
      end
  | ResetButton, TRIGGERED => handleReset a
  | _, _ => a
  end.

(** After the render that follows an event, the effects run. *)
Definition step (a : App) (e : Event) : App :=
  countdownEffect (crashEffect (deliver a e)).

Definition steps (a : App) (events : list Event) : App :=
  fold_left step events a.

Inductive reachable : App -> Prop :=
| reachable_initial : reachable initialApp
| reachable_step a e : reachable a -> reachable (step a e).

(** After the effects have run, an armed application has no pending
    detection and a confirming one has a running countdown. *)
Definition settled (a : App) : Prop :=
  match appState a with
  | ARMED => isCrashDetected a = false
  | CONFIRMING => (1 <= countdown a)%nat
  | TRIGGERED => True
  end.

End BodaBox.

(* ================================================================== *)
(** ** hooks/useOfflineQueue.ts                                        *)
(* ================================================================== *)

Module OfflineQueue.
Import Text.
Local Open Scope string_scope.

Inductive ItemType : Set := emergency_sms | trust_packet.

Definition typeName (t : ItemType) : string :=
  match t with
  | emergency_sms => "emergency_sms"
  | trust_packet => "trust_packet"
  end.

Record QueuedItem : Set := mkItem {
  id         : string;
  type       : ItemType;
  data       : string;
  timestamp  : Z;
  retryCount : nat
}.

(** The entry [boda_offline_queue] of [localStorage]; only this hook and
    [sendEmergencySMS] write it, always as the JSON text of an item list. *)
Definition Storage : Set := option (list QueuedItem).

Definition getQueue (storage : Storage) : list QueuedItem :=
  match storage with
  | Some queue => queue
  | None => []
  end.

(** [addToQueue]; [now] is [Date.now()] and [suffix] the random part of
    the id. *)
Definition addToQueue (now : Z) (suffix : string) (type : ItemType)
    (data : string) (storage : Storage) : string * Storage :=
  let item :=
    mkItem (typeName type ++ "_" ++ Z_toString now ++ "_" ++ suffix)
           type data now 0 in
  let queue := (getQueue storage ++ [item])%list in
  (id item, Some queue).

(** What one run of [processQueue] does, in order. *)
Inductive LogEntry : Set :=
| Dispatched (itemId : string)      (* [sendEmergencySMS] was called *)
| SentSMS (itemId : string)
| UploadedPacket (itemId : string)
| Failed (itemId : string)
| RemovedAfterRetries (itemId : string).

Record Drain : Set := mkDrain {
  items        : list QueuedItem;   (* the parsed queue, items mutated in place *)
  processedIds : list string;
  log          : list LogEntry
}.

(** One iteration of the [for] loop; [send item] tells whether
    [sendEmergencySMS] resolves ([true]) or throws. *)
Definition processItem (send : QueuedItem -> bool) (d : Drain)
    (item : QueuedItem) : Drain :=
  match type item with
  | emergency_sms =>
      if send item then
        mkDrain (items d ++ [item]) (processedIds d ++ [id item])
                (log d ++ [Dispatched (id item); SentSMS (id item)])
      else
        let item' := mkItem (id item) (type item) (data item)
                            (timestamp item) (retryCount item + 1) in
        if (3 <=? retryCount item')%nat then
          mkDrain (items d ++ [item']) (processedIds d ++ [id item])
                  (log d ++ [Dispatched (id item); Failed (id item);
                             RemovedAfterRetries (id item)])
        else
          mkDrain (items d ++ [item']) (processedIds d)
                  (log d ++ [Dispatched (id item); Failed (id item)])
  | trust_packet =>
      mkDrain (items d ++ [item]) (processedIds d ++ [id item])
              (log d ++ [UploadedPacket (id item)])
  end.

Definition includes (ids : list string) (x : string) : bool :=
  existsb (String.eqb x) ids.

(** [processQueue]: the storage it leaves and what it did. *)
Definition processQueue (online : bool) (send : QueuedItem -> bool)
    (storage : Storage) : Storage * list LogEntry :=
  if negb online then (storage, [])
  else
    let queue := getQueue storage in
    match queue with
    | [] => (storage, [])
    | _ :: _ =>
        let d := fold_left (processItem send) queue (mkDrain [] [] []) in
        match processedIds d with
        | [] => (storage, log d)
        | _ :: _ =>
            let updatedQueue :=
              filter (fun item => negb (includes (processedIds d) (id item)))
                     (items d) in
            (Some updatedQueue, log d)
        end
    end.

(** Successive drains, each with its own connectivity and dispatch
    outcomes; the logs are concatenated. *)
Fixpoint drains (runs : list (bool * (QueuedItem -> bool))) (storage : Storage)
  : Storage * list LogEntry :=
  match runs with
  | [] => (storage, [])
  | (online, send) :: rest =>
      let '(storage1, log1) := processQueue online send storage in
      let '(storage2, log2) := drains rest storage1 in
      (storage2, (log1 ++ log2)%list)
  end.

(** The log entry that shows an item was taken up by the loop. *)
Definition attempt (item : QueuedItem) : LogEntry :=
  match type item with
  | emergency_sms => Dispatched (id item)
  | trust_packet => UploadedPacket (id item)
  end.

(** Does the loop mark the item as processed without a throw? *)
Definition succeeds (send : QueuedItem -> bool) (item : QueuedItem) : bool :=
  match type item with
  | emergency_sms => send item
  | trust_packet => true
  end.

Definition isDispatchOf (itemId : string) (entry : LogEntry) : bool :=
  match entry with
  | Dispatched i => String.eqb i itemId
  | _ => false
  end.

Definition dispatchCount (itemId : string) (entries : list LogEntry) : nat :=
  List.length (filter (isDispatchOf itemId) entries).

End OfflineQueue.

(* ================================================================== *)
(** ** The design document's wording, and its scenarios                *)
(* ================================================================== *)

Module Design.
Import SensorFusion.

(** "[window(durationMs)] returns the order-preserving subsequence of
    samples whose timestamp is within [durationMs] of the most recent
    sample". *)
Definition window (durationMs : Z) (buffer : list SensorReading)
  : list SensorReading :=
  match rev buffer with
  | [] => []
  | latest :: _ =>
      filter (fun r => (timestamp latest - timestamp r <=? durationMs)%Z) buffer
  end.

(** "All three gates pass": window population at least 5, at least 3
    samples above 4.0 g, largest endpoint rotation change above 90. *)
Definition threeGates (now : Z) (buffer : list SensorReading) : bool :=
  let recent := recentReadings now buffer in
  (5 <=? List.length recent)%nat
  && (3 <=? List.length (highGReadings recent))%nat
  && PrimFloat.ltb ROTATION_THRESHOLD (calculateRotationChange recent).

(** A motion event of magnitude 5.0 (a 3-4-5 triangle) with rotation rate
    [alpha], and a motionless one. *)
Definition impactEvent (alpha : float) : DeviceMotionEvent :=
  mkEvent (Some (mkVec3 (Some 3%float) (Some 4%float) None))
          (Some (mkVec3 (Some alpha) None None)).

Definition quietEvent : DeviceMotionEvent :=
  mkEvent (Some (mkVec3 None None None)) (Some (mkVec3 None None None)).

Definition impactAt (t : Z) (alpha : float) : Action := Motion t t (impactEvent alpha).
Definition quietAt (t : Z) : Action := Motion t t quietEvent.

(** Scenario A as written: six samples within 100 ms, magnitude 5.0,
    rotation going from 0 to [delta]. *)
Definition sixImpacts (delta : float) : list Action :=
  [ impactAt 1000 0; impactAt 1020 0; impactAt 1040 0;
    impactAt 1060 0; impactAt 1080 0; impactAt 1100 delta ].

(** The same six samples after four earlier motionless ones. *)
Definition tenSamples (delta : float) : list Action :=
  [ quietAt 100; quietAt 300; quietAt 500; quietAt 700 ] ++ sixImpacts delta.

Definition bufferAfter (actions : list Action) : list SensorReading :=
  sensorBuffer (run (Start :: actions)).

Definition detectedAfter (actions : list Action) : bool :=
  isCrashDetected (state (run (Start :: actions))).

(** [l1] is [l2] with some elements left out, order kept. *)
Inductive subsequence {A : Type} : list A -> list A -> Prop :=
| subsequence_nil : subsequence [] []
| subsequence_skip x l1 l2 : subsequence l1 l2 -> subsequence l1 (x :: l2)
| subsequence_keep x l1 l2 : subsequence l1 l2 -> subsequence (x :: l1) (x :: l2).

(** Samples stored in the order of their time stamps. *)
Definition chronological (buffer : list SensorReading) : Prop :=
  StronglySorted (fun a b => (timestamp a <= timestamp b)%Z) buffer.

Definition magnitudeOf (r : SensorReading) : float :=
  calculateMagnitude (accelerationX r) (accelerationY r) (accelerationZ r).

(** A buffer filled to capacity, oldest sample stamped 0. *)
Definition fullBuffer : list SensorReading :=
  map (fun t => mkReading (Z.of_nat t) 0 0 0 0 0 0) (seq 0 BUFFER_SIZE).

(** Two samples 100 ms apart, analysed one millisecond after the second
    was stamped. *)
Definition twoSamples : list SensorReading :=
  [ mkReading 0 0 0 0 0 0 0; mkReading 100 0 0 0 0 0 0 ].

(** A capture at night on an insecure origin: the camera answers, the
    position times out, the microphone is refused; integral numbers stand
    for the packet's numbers. *)
Definition cameraOnly (crypto : bool) : EvidenceCapture.Browser Z :=
  EvidenceCapture.mkBrowser
    (EvidenceCapture.Captured "data:image/jpeg;base64,/9j/4AAQSkZJRg==")
    EvidenceCapture.GeolocationError
    EvidenceCapture.MicrophoneFailed
    crypto
    "Mozilla/5.0 (Linux; Android 13)" "Linux armv8l" "en-KE"
    1700000000000 1700000001650 1700000001651
    "k3j9x0q2a" "2023-11-14T22:13:21.651Z".

Definition cameraRefused : EvidenceCapture.Browser Z :=
  EvidenceCapture.mkBrowser
    EvidenceCapture.CameraDenied
    (EvidenceCapture.Position (-1) 37 12)%Z
    (EvidenceCapture.FrequencyData [0; 17; 255]%Z)
    true
    "Mozilla/5.0 (Linux; Android 13)" "Linux armv8l" "en-KE"
    1700000000000 1700000001650 1700000001651
    "k3j9x0q2a" "2023-11-14T22:13:21.651Z".

(** The record [captureEvidence] assembles there, before sealing. *)
Definition unsealedExample : EvidenceCapture.TrustPacket Z :=
  EvidenceCapture.assemble (cameraOnly false)
    "data:image/jpeg;base64,/9j/4AAQSkZJRg=="
    EvidenceCapture.nullLocation "audio_unavailable".

(** The lower-case hexadecimal SHA-256 digest of the UTF-8 bytes of a
    text. *)
Definition sha256Hex (text : string) : string :=
  Text.join EmptyString
    (map Text.hex2 (SHA256.digest (Text.TextEncoder_encode text))).

(** One emergency SMS queued while offline, and a dispatch that always
    throws. *)
Definition queuedSMS : OfflineQueue.QueuedItem :=
  OfflineQueue.mkItem "emergency_sms_1700000000000_k3j9x0q2a"
                      OfflineQueue.emergency_sms "bodabox_1700000001651_k3j9x0q2a"
                      1700000000000 0.

Definition alwaysThrows : OfflineQueue.QueuedItem -> bool := fun _ => false.

Definition failingDrains (n : nat)
  : list (bool * (OfflineQueue.QueuedItem -> bool)) :=
  repeat (true, alwaysThrows) n.

End Design.

From Stdlib Require Import DecimalZ DecimalPos.

(* ================================================================== *)
(** ** Notions used to state further properties of the sensor hook     *)
(* ================================================================== *)

Module SensorNotions.
Import SensorFusion.

(** The actions that leave a raised detection flag alone. *)
Definition keepsDetection (a : Action) : bool :=
  match a with
  | Motion _ _ _ | Stop => true
  | Start | Reset => false
  end.

(** The clock values stamped on the readings of a run, in order. *)
Definition stamps (actions : list Action) : list Z :=
  flat_map (fun a => match a with
                     | Motion t_read _ _ => [t_read]
                     | _ => []
                     end) actions.

(** No component of the reading is [NaN]. *)
Definition isNumber (r : SensorReading) : bool :=
  negb (PrimFloat.is_nan (accelerationX r))
  && negb (PrimFloat.is_nan (accelerationY r))
  && negb (PrimFloat.is_nan (accelerationZ r))
  && negb (PrimFloat.is_nan (rotationAlpha r))
  && negb (PrimFloat.is_nan (rotationBeta r))
  && negb (PrimFloat.is_nan (rotationGamma r)).

(** Each sample is stamped at least [d] ms after the one before it. *)
Fixpoint spaced (d : Z) (buffer : list SensorReading) : Prop :=
  match buffer with
  | a :: (b :: _) as rest => (timestamp a + d <= timestamp b)%Z /\ spaced d rest
  | _ => True
  end.

End SensorNotions.

(** Six impacts stamped 30 ms apart after six motionless samples. *)
Definition slowImpacts : list SensorFusion.Action :=
  map (fun k => Design.quietAt (30 * Z.of_nat k)) (seq 0 6)
  ++ map (fun k => Design.impactAt (30 * Z.of_nat k)
                     (if (k =? 11)%nat then 120%float else 0%float))
         (seq 6 6).

(** The serialized members of an object, as the loop of
    SerializeJSONObject collects them. *)
Module JSONNotions.
Import Text JSON.

Section Members.
Variable number : Type.
Variable Number_toJSON : number -> string.

Fixpoint members (gap indent : string) (properties : list (string * JSValue number))
  : list string :=
  match properties with
  | [] => []
  | (key, v) :: rest =>
      match SerializeJSONProperty Number_toJSON gap indent v with
      | None => members gap indent rest
      | Some strP => member gap key strP :: members gap indent rest
      end
  end.

End Members.
Arguments members {number}.

End JSONNotions.

(* ================================================================== *)
(** ** utils/evidenceCapture.ts: keeping the packet                    *)
(* ================================================================== *)

Module TrustStore.
Import Text JSON EvidenceCapture.
Local Open Scope string_scope.

(** [localStorage]: the entries, one per key. *)
Definition LocalStorage : Set := list (string * string).

Fixpoint getItem (key : string) (store : LocalStorage) : option string :=
  match store with
  | [] => None
  | (k, v) :: rest => if String.eqb k key then Some v else getItem key rest
  end.

Definition removeItem (key : string) (store : LocalStorage) : LocalStorage :=
  filter (fun entry => negb (String.eqb (fst entry) key)) store.

(** [setItem] throws when the browser refuses the write (the quota is
    exceeded, storage is disabled); [accepts] is the browser's answer. *)
Definition setItem (accepts : LocalStorage -> string -> string -> bool)
    (key value : string) (store : LocalStorage) : option LocalStorage :=
  if accepts store key value
  then Some ((key, value) :: removeItem key store)
  else None.

Section Save.

Variable number : Type.
Variable Number_toJSON : number -> string.
Variable accepts : LocalStorage -> string -> string -> bool.

(** [saveTrustPacket]: the [catch] keeps what was written before the
    throw. *)
Definition saveTrustPacket (trustPacket : TrustPacket number)
    (store : LocalStorage) : LocalStorage :=
  let packetString := JSON_stringify Number_toJSON 0 trustPacket in
  match setItem accepts "boda_trust_packet" packetString store with
  | None => store
  | Some store1 =>
      let hashText := match hash trustPacket with
                      | Some h => h
                      | None => EmptyString
                      end in
      match setItem accepts "boda_trust_hash" hashText store1 with
      | None => store1
      | Some store2 => store2
      end
  end.

End Save.

Arguments saveTrustPacket {number}.

(** A browser that never refuses a write. *)
Definition roomy : LocalStorage -> string -> string -> bool :=
  fun _ _ _ => true.

Definition isHexDigit (c : ascii) : bool :=
  let code := Z.of_N (N_of_ascii c) in
  ((48 <=? code) && (code <=? 57) || (97 <=? code) && (code <=? 102))%Z.

Definition notUnderscore (c : ascii) : bool := negb (Ascii.eqb c "_").

Fixpoint allChars (p : ascii -> bool) (s : string) : bool :=
  match s with
  | EmptyString => true
  | String c rest => p c && allChars p rest
  end.

End TrustStore.

(* ================================================================== *)
(** ** utils/evidenceCapture.ts: [sendEmergencySMS], and the drain      *)
(**    of hooks/useOfflineQueue.ts with it as the dispatch             *)
(* ================================================================== *)

Module Dispatch.
Import Text OfflineQueue.
Local Open Scope string_scope.

(** What the browser and the backend answer during one call. *)
Record Network : Set := mkNetwork {
  onLine      : bool;            (* [navigator.onLine] *)
  hasSession  : bool;            (* [getSession()] gives a session *)
  invokeError : option string;   (* [response.error] of [functions.invoke] *)
  idTime      : Z;               (* [Date.now()] in the queued id *)
  idSuffix    : string;          (* the random part of the queued id *)
  stampTime   : Z                (* [Date.now()] in the queued timestamp *)
}.

Inductive Outcome : Set :=
| Queued                         (* resolves with [{ queued: true }] *)
| Delivered                      (* resolves with [response.data] *)
| Threw (message : string).

(** [sendEmergencySMS]; [data] stands for the pair of its arguments. *)
Definition sendEmergencySMS (net : Network) (data : string) (storage : Storage)
  : Outcome * Storage :=
  if negb (onLine net) then
    let queue := getQueue storage in
    let queued :=
      mkItem ("sms_" ++ Z_toString (idTime net) ++ "_" ++ idSuffix net)
             emergency_sms data (stampTime net) 0 in
    (Queued, Some (queue ++ [queued])%list)
  else if negb (hasSession net) then (Threw "Not authenticated", storage)
  else
    match invokeError net with
    | Some message => (Threw message, storage)
    | None => (Delivered, storage)
    end.

(** The loop of [processQueue] with the storage [sendEmergencySMS] may
    write to. *)
Record Sending : Set := mkSending {
  stored : Storage;
  drain  : Drain
}.

Definition processItemSending (net : QueuedItem -> Network) (s : Sending)
    (item : QueuedItem) : Sending :=
  let d := drain s in
  match type item with
  | emergency_sms =>
      match sendEmergencySMS (net item) (data item) (stored s) with
      | (Threw _, stored') =>
          let item' := mkItem (id item) (type item) (data item)
                              (timestamp item) (retryCount item + 1) in
          if (3 <=? retryCount item')%nat then
            mkSending stored'
              (mkDrain (items d ++ [item']) (processedIds d ++ [id item])
                 (log d ++ [Dispatched (id item); Failed (id item);
                            RemovedAfterRetries (id item)]))
          else
            mkSending stored'
              (mkDrain (items d ++ [item']) (processedIds d)
                 (log d ++ [Dispatched (id item); Failed (id item)]))
      | (_, stored') =>
          mkSending stored'
            (mkDrain (items d ++ [item]) (processedIds d ++ [id item])
               (log d ++ [Dispatched (id item); SentSMS (id item)]))
      end
  | trust_packet =>
      mkSending (stored s)
        (mkDrain (items d ++ [item]) (processedIds d ++ [id item])
           (log d ++ [UploadedPacket (id item)]))
  end%list.

(** [processQueue] with [sendEmergencySMS] as its dispatch; [online] is
    [navigator.onLine] at its first line, [net item] what the call for
    [item] meets. *)
Definition processQueueSending (online : bool) (net : QueuedItem -> Network)
    (storage : Storage) : Storage * list LogEntry :=
  if negb online then (storage, [])
  else
    let queue := getQueue storage in
    match queue with
    | [] => (storage, [])
    | _ :: _ =>
        let s := fold_left (processItemSending net) queue
                           (mkSending storage (mkDrain [] [] [])) in
        match processedIds (drain s) with
        | [] => (stored s, log (drain s))
        | _ :: _ =>
            let updatedQueue :=
              filter (fun item => negb (includes (processedIds (drain s)) (id item)))
                     (items (drain s)) in
            (Some updatedQueue, log (drain s))
        end
    end.

(** Does the call for an item resolve, once online? *)
Definition resolves (net : Network) : bool :=
  hasSession net
  && match invokeError net with
     | None => true
     | Some _ => false
     end.

(** A network that is down, whatever else it would answer. *)
Definition offlineAt (t : Z) : Network :=
  mkNetwork false true None t "r4nd0m5uf" t.

(** A network that is up, with a session and a backend that answers. *)
Definition upAt (t : Z) : Network :=
  mkNetwork true true None t "r4nd0m5uf" t.

End Dispatch.

(* ================================================================== *)
(** ** Notions used to state further properties of the queue           *)
(* ================================================================== *)

Module QueueNotions.
Import OfflineQueue.

(** The item as the loop leaves it in memory. *)
Definition touched (send : QueuedItem -> bool) (item : QueuedItem) : QueuedItem :=
  if succeeds send item then item
  else mkItem (id item) (type item) (data item) (timestamp item)
              (retryCount item + 1).

(** Is the item's id pushed on [processedIds]? *)
Definition processed (send : QueuedItem -> bool) (item : QueuedItem) : bool :=
  succeeds send item || (3 <=? retryCount item + 1)%nat.

(** The entries that start the handling of an item. *)
Definition isAttempt (entry : LogEntry) : bool :=
  match entry with
  | Dispatched _ | UploadedPacket _ => true
  | _ => false
  end.

(** The item with one more retry counted. *)
Definition retried (item : QueuedItem) : QueuedItem :=
  mkItem (id item) (type item) (data item) (timestamp item)
         (retryCount item + 1).

End QueueNotions.

(* ================================================================== *)
(** ** Notions used to state further properties of the state machine   *)
(* ================================================================== *)

Module BodaNotions.
Import BodaBox.

Definition isTimer (e : Event) : bool :=
  match e with
  | TimerFired => true
  | _ => false
  end.

(** The number of timer firings still needed before [TRIGGERED]. *)
Definition firingsNeeded (a : App) : nat :=
  match appState a with
  | ARMED => 5
  | CONFIRMING => Nat.min (countdown a) 5
  | TRIGGERED => 0
  end.

End BodaNotions.

(* ================================================================== *)
(** ** supabase/functions/send-emergency-sms/index.ts                  *)
(* ================================================================== *)

Module EdgeFunction.
Import Text.
Local Open Scope string_scope.

Record Contact : Set := mkContact {
  name         : string;
  phone_number : string
}.

(** What Twilio does with one message. *)
Inductive Twilio : Set :=
| Accepted (sid : string)                 (* [twilioResponse.ok] *)
| Refused (message : option string)       (* not ok, [twilioData.message] *)
| Broke (message : string).               (* [fetch] or [json()] throws *)

Record Result : Set := mkResult {
  contact : string;
  phone   : string;
  success : bool;
  detail  : string                        (* [sid] or [error] *)
}.

Inductive Body : Set :=
| NoBody
| Report (success : bool) (message : string) (results : list Result)
| Failure (error : string).

Record Response : Set := mkResponse {
  status : Z;
  body   : Body
}.

(** The answer of the query for the user's contacts. *)
Inductive ContactsAnswer : Set :=
| ContactsError (message : string)
| NoData
| Rows (contacts : list Contact).

(** [!x] on a [string | null | undefined]. *)
Definition missing (x : option string) : bool :=
  match x with
  | None => true
  | Some s => isEmpty s
  end.

Fixpoint startsWith (prefix s : string) : option string :=
  match prefix, s with
  | EmptyString, rest => Some rest
  | String p prefix', String c s' =>
      if Ascii.eqb p c then startsWith prefix' s' else None
  | String _ _, EmptyString => None
  end.

(** [s.replace(pattern, '')] for a non-empty string pattern: the first
    occurrence is cut out. *)
Fixpoint cutFirst (pattern s : string) : string :=
  match startsWith pattern s with
  | Some rest => rest
  | None =>
      match s with
      | EmptyString => EmptyString
      | String c s' => String c (cutFirst pattern s')
      end
  end.

Definition alarm : string :=
  String "240" (String "159" (String "154" (String "168" EmptyString))).

Section Handler.

Variable number : Type.
Variable Number_toString : number -> string.

Record SMSRequest : Type := mkRequest {
  message       : string;
  location      : option (number * number);
  trustPacketId : option string
}.

(** The request and everything the handler asks of its environment. *)
Record Call : Type := mkCall {
  method            : string;
  authorization     : option string;
  getUser           : string -> option string;    (* the user id for a JWT *)
  json              : string + SMSRequest;        (* [req.json()] throws or parses *)
  contactsOf        : string -> ContactsAnswer;
  twilioAccountSid  : option string;
  twilioAuthToken   : option string;
  twilioPhoneNumber : option string;
  twilio            : string -> string -> Twilio; (* [To], [Body] *)
  localeTime        : string                      (* [new Date().toLocaleString()] *)
}.

Definition smsMessage (c : Call) (r : SMSRequest) : string :=
  let m0 := alarm ++ " EMERGENCY ALERT " ++ alarm ++ LF ++ LF ++ message r in
  let m1 := match location r with
            | Some (latitude, longitude) =>
                m0 ++ LF ++ LF ++ "Location: https://maps.google.com/maps?q="
                   ++ Number_toString latitude ++ "," ++ Number_toString longitude
            | None => m0
            end in
  let m2 := if missing (trustPacketId r) then m1
            else m1 ++ LF ++ LF ++ "Trust Packet ID: "
                    ++ match trustPacketId r with
                       | Some i => i
                       | None => EmptyString
                       end in
  m2 ++ LF ++ LF ++ "Time: " ++ localeTime c.

(** One turn of the loop over the contacts. *)
Definition sendTo (c : Call) (text : string) (k : Contact) : Result :=
  match twilio c (phone_number k) text with
  | Accepted sid => mkResult (name k) (phone_number k) true sid
  | Refused m =>
      mkResult (name k) (phone_number k) false
               (if missing m then "Unknown error"
                else match m with Some e => e | None => EmptyString end)
  | Broke e => mkResult (name k) (phone_number k) false e
  end.

Definition failure (error : string) : Response := mkResponse 500 (Failure error).

Definition handler (c : Call) : Response :=
  if String.eqb (method c) "OPTIONS" then mkResponse 200 NoBody
  else if missing (authorization c) then failure "No authorization header"
  else
    let authHeader := match authorization c with
                      | Some h => h
                      | None => EmptyString
                      end in
    let jwt := cutFirst "Bearer " authHeader in
    match getUser c jwt with
    | None => failure "Invalid user token"
    | Some user =>
        match json c with
        | inl error => failure error
        | inr request =>
            match contactsOf c user with
            | ContactsError m => failure ("Error fetching contacts: " ++ m)
            | NoData => failure "No emergency contacts found"
            | Rows [] => failure "No emergency contacts found"
            | Rows contacts =>
                if missing (twilioAccountSid c) || missing (twilioAuthToken c)
                   || missing (twilioPhoneNumber c)
                then failure "Twilio credentials not configured"
                else
                  let results := map (sendTo c (smsMessage c request)) contacts in
                  let successCount :=
                    List.length (filter success results) in
                  mkResponse 200
                    (Report (0 <? successCount)%nat
                       ("SMS sent to " ++ Z_toString (Z.of_nat successCount)
                        ++ " of " ++ Z_toString (Z.of_nat (List.length contacts))
                        ++ " contacts")
                       results)
            end
        end
    end.

End Handler.

Arguments mkRequest {number}.
Arguments mkCall {number}.
Arguments handler {number}.
Arguments smsMessage {number}.
Arguments sendTo {number}.

End EdgeFunction.

(** A call with two contacts, of which Twilio refuses the first. *)
Module EdgeExample.
Import EdgeFunction.
Local Open Scope string_scope.

Definition contacts : list Contact :=
  [ mkContact "Amina" "+254700000001"; mkContact "Otieno" "+254700000002" ].

Definition call (twilio : string -> string -> Twilio) : Call Z :=
  mkCall "POST" (Some "Bearer eyJhbGciOi")
         (fun jwt => if String.eqb jwt "eyJhbGciOi" then Some "user-1" else None)
         (inr (mkRequest "Crash detected" (Some (-1, 37)%Z)
                         (Some "bodabox_1700000001651_k3j9x0q2a")))
         (fun _ => Rows contacts)
         (Some "AC1") (Some "token") (Some "+15550100")
         twilio "14/11/2023, 22:13:21".

Definition secondOnly : string -> string -> Twilio :=
  fun to _ => if String.eqb to "+254700000002" then Accepted "SM2"
              else Refused None.

End EdgeExample.

(* ================================================================== *)
(** ** utils/securityValidation.ts                                     *)
(* ================================================================== *)

Module SecurityValidation.
Local Open Scope Z_scope.

(** Here a JavaScript string is the list of its UTF-16 code units, the
    units [length], [trim] and [substring] count in. *)
Definition Units : Set := list Z.

(** WhiteSpace and LineTerminator of ECMAScript, what [trim] strips. *)
Definition isWhiteSpace (c : Z) : bool :=
  existsb (Z.eqb c)
    [0x9; 0xA; 0xB; 0xC; 0xD; 0x20; 0xA0; 0x1680; 0x2028; 0x2029; 0x202F;
     0x205F; 0x3000; 0xFEFF]
  || ((0x2000 <=? c) && (c <=? 0x200A)).

Fixpoint trimStart (s : Units) : Units :=
  match s with
  | [] => []
  | c :: rest => if isWhiteSpace c then trimStart rest else s
  end.

Definition trimEnd (s : Units) : Units := rev (trimStart (rev s)).

Definition trim (s : Units) : Units := trimEnd (trimStart s).

(** [s.replace(/[...]/g, '')] for a class of single code units. *)
Definition removeClass (class : list Z) (s : Units) : Units :=
  filter (fun c => negb (existsb (Z.eqb c) class)) s.

Definition lessThan : Z := 60.
Definition greaterThan : Z := 62.
Definition apostrophe : Z := 39.
Definition quotation : Z := 34.

Definition sanitizeInput (input : Units) : Units :=
  firstn 1000
    (removeClass [apostrophe; quotation]
       (removeClass [lessThan; greaterThan] (trim input))).

(** The entries [rate_limit_<key>] of [localStorage], each the list of
    the time stamps stored under it. *)
Definition RateStore : Set := string -> list Z.

Definition store (key : string) (attempts : list Z) (s : RateStore) : RateStore :=
  fun k => if String.eqb k key then attempts else s k.

(** [checkClientRateLimit]; [now] is [Date.now()].  [true] means rate
    limited. *)
Definition checkClientRateLimit (now : Z) (key : string) (maxAttempts : Z)
    (windowMs : Z) (s : RateStore) : bool * RateStore :=
  let attempts := s key in
  let recentAttempts := filter (fun timestamp => now - timestamp <? windowMs) attempts in
  if Z.of_nat (List.length recentAttempts) >=? maxAttempts then (true, s)
  else (false, store key (recentAttempts ++ [now]) s).

(** Successive checks of one key at the given clock values: the clock
    values of the checks that were let through, and the store left. *)
Fixpoint checks (times : list Z) (key : string) (maxAttempts windowMs : Z)
    (s : RateStore) : list Z * RateStore :=
  match times with
  | [] => ([], s)
  | now :: rest =>
      let '(limited, s1) := checkClientRateLimit now key maxAttempts windowMs s in
      let '(passed, s2) := checks rest key maxAttempts windowMs s1 in
      (if limited then passed else now :: passed, s2)
  end.

Definition noAttempts : RateStore := fun _ => [].

End SecurityValidation.

(* ================================================================== *)
(** ** Notions used to state that the hashed text fixes the packet     *)
(* ================================================================== *)

Module Canonical.
Import Text JSON EvidenceCapture.
Local Open Scope string_scope.

(** The characters of the decimal rendering of a finite number. *)
Definition isNumeric (c : ascii) : bool :=
  let code := Z.of_N (N_of_ascii c) in
  ((48 <=? code) && (code <=? 57))%Z
  || existsb (Ascii.eqb c) ["-"; "+"; "."; "e"; "E"]%char.

Definition allAscii : list ascii := map ascii_of_nat (seq 0 256).

(** Two escapes are unrelated when neither starts the other. *)
Definition unrelated (a b : string) : bool :=
  negb (String.prefix a b || String.prefix b a).

Definition quote : string := String "034" EmptyString.

Section Flat.
Variable number : Type.
Variable Number_toJSON : number -> string.

Definition key (k : string) : string := QuoteJSONString k ++ ":".

Definition nullableText (v : option number) : string :=
  match v with
  | None => "null"
  | Some x => Number_toJSON x
  end.

Definition hashText (h : option string) : string :=
  match h with
  | None => EmptyString
  | Some digest => "," ++ key "hash" ++ QuoteJSONString digest
  end.

(** The compact text of a packet, piece by piece. *)
Definition flatText (p : TrustPacket number) : string :=
  "{" ++ key "eventId" ++ QuoteJSONString (eventId p)
  ++ "," ++ key "timestamp" ++ QuoteJSONString (timestamp p)
  ++ "," ++ key "location"
  ++ "{" ++ key "latitude" ++ nullableText (latitude (location p))
  ++ "," ++ key "longitude" ++ nullableText (longitude (location p))
  ++ "," ++ key "accuracy" ++ nullableText (accuracy (location p))
  ++ "}"
  ++ "," ++ key "evidence"
  ++ "{" ++ key "photo" ++ QuoteJSONString (photo (evidence p))
  ++ "," ++ key "audioSignature" ++ QuoteJSONString (audioSignature (evidence p))
  ++ "}"
  ++ "," ++ key "metadata"
  ++ "{" ++ key "userAgent" ++ QuoteJSONString (userAgent (metadata p))
  ++ "," ++ key "deviceInfo" ++ QuoteJSONString (deviceInfo (metadata p))
  ++ "," ++ key "captureDelay" ++ Z_toString (captureDelay (metadata p))
  ++ "}"
  ++ hashText (hash p)
  ++ "}".

End Flat.
Arguments nullableText {number}.
Arguments flatText {number}.

End Canonical.

(* ================================================================== *)
(** ** The SMS rate limit of the edge function and of the dashboard    *)
(* ================================================================== *)

Module SmsRateLimit.
Local Open Scope Z_scope.

(** A row of [sms_rate_limits]; [reset_time] in milliseconds, as
    [getTime()] gives it. *)
Record Row : Set := mkRow {
  sms_count  : Z;
  reset_time : Z
}.

(** The table by [user_id]: its unique index allows one row a user. *)
Definition Table : Set := string -> option Row.

Definition put (userId : string) (row : Row) (table : Table) : Table :=
  fun u => if String.eqb u userId then Some row else table u.

(** What becomes of one query: it is carried out, it comes back with an
    [error], or the client throws. *)
Inductive Service : Set := Answers | Errors | Throws.

Record Database : Set := mkDatabase {
  select : Service;
  write  : Service          (* the [insert] or [update] of the call *)
}.


Definition HOUR : Z := 60 * 60 * 1000.

(** [checkAndUpdateRateLimit]; [now] is [new Date().getTime()].  [true]
    means rate limited.  An [insert] for a user who has a row is refused
    by the unique index. *)
Definition checkAndUpdateRateLimit (db : Database) (userId : string) (now : Z)
    (table : Table) : bool * Table :=
  match select db with
  | Throws => (false, table)
  | served =>
      let existingLimit :=
        match served with
        | Answers => table userId
        | _ => None
        end in
      match existingLimit with
      | None =>
          match write db, table userId with
          | Answers, None => (false, put userId (mkRow 1 (now + HOUR)) table)
          | _, _ => (false, table)
          end
      | Some limit =>
          if reset_time limit <? now then
            match write db with
            | Answers => (false, put userId (mkRow 1 (now + HOUR)) table)
            | _ => (false, table)
            end
          else if sms_count limit >=? 5 then (true, table)
          else
            match write db with
            | Answers =>
                (false,
                 put userId (mkRow (sms_count limit + 1) (reset_time limit)) table)
            | _ => (false, table)
            end
      end
  end.

(** Successive requests of one user, each with the state of the database
    and the clock at that moment: the clock values of the requests that
    were let through, and the table left. *)
Fixpoint requests (userId : string) (calls : list (Database * Z)) (table : Table)
    : list Z * Table :=
  match calls with
  | [] => ([], table)
  | (db, now) :: rest =>
      let '(limited, table1) := checkAndUpdateRateLimit db userId now table in
      let '(passed, table2) := requests userId rest table1 in
      (if limited then passed else now :: passed, table2)
  end.



Definition noRows : Table := fun _ => None.



(** A database that reads but does not write. *)
Definition readOnly : list (Database * Z) :=
  [(mkDatabase Answers Errors, 0); (mkDatabase Answers Throws, 1000);
   (mkDatabase Errors Errors, 2000); (mkDatabase Throws Errors, 3000)].

End SmsRateLimit.

(* ================================================================== *)
(** * Properties of the sensor hook                                    *)
(* ================================================================== *)

Import SensorFusion Design.

(** ** Ordering facts on binary64 values *)

Section FloatOrder.

Lemma SFltb_trans x y z :
  SFltb x y = true -> SFltb y z = true -> SFltb x z = true.
Proof.
  unfold SFltb, SFcompare.
  destruct x as [sx|sx| |sx mx ex], y as [sy|sy| |sy my ey], z as [sz|sz| |sz mz ez];
    try destruct sx; try destruct sy; try destruct sz;
    try discriminate; try reflexivity.
  all: destruct (Z.compare_spec ex ey), (Z.compare_spec ey ez), (Z.compare_spec ex ez);
    try discriminate; try reflexivity; try lia; subst.
  all: rewrite ?Pos.compare_cont_spec in *; simpl in *.
  all: destruct (Pos.compare_spec mx my), (Pos.compare_spec my mz), (Pos.compare_spec mx mz);
    simpl; try discriminate; try reflexivity; try lia.
Qed.

(** [x < y] and [not (z < y)] give [x < z] when [z] is a number. *)
Lemma SFltb_below_trans x y z :
  SFltb x y = true -> SFltb z y = false -> z <> S754_nan -> SFltb x z = true.
Proof.
  unfold SFltb, SFcompare.
  destruct x as [sx|sx| |sx mx ex], y as [sy|sy| |sy my ey], z as [sz|sz| |sz mz ez];
    try destruct sx; try destruct sy; try destruct sz;
    try discriminate; try reflexivity; try congruence.
  all: destruct (Z.compare_spec ex ey), (Z.compare_spec ez ey), (Z.compare_spec ex ez);
    try discriminate; try reflexivity; try lia; subst.
  all: rewrite ?Pos.compare_cont_spec in *; simpl in *.
  all: destruct (Pos.compare_spec mx my), (Pos.compare_spec mz my), (Pos.compare_spec mx mz);
    simpl; try discriminate; try reflexivity; try lia.
Qed.

Lemma is_nan_false x : PrimFloat.is_nan x = false -> Prim2SF x <> S754_nan.
Proof.
  unfold PrimFloat.is_nan. rewrite FloatAxioms.eqb_spec. intros H E. rewrite E in H.
  discriminate H.
Qed.

Lemma is_zero_true x :
  PrimFloat.is_zero x = true -> exists s, Prim2SF x = S754_zero s.
Proof.
  unfold PrimFloat.is_zero. rewrite FloatAxioms.eqb_spec.
  replace (Prim2SF PrimFloat.zero) with (S754_zero false) by (vm_compute; reflexivity).
  destruct (Prim2SF x) as [s|s| |s m e]; try destruct s; try discriminate;
    eauto.
Qed.

Lemma ltb_zero_irrelevant h n b :
  PrimFloat.is_zero h = true -> PrimFloat.is_zero n = true ->
  PrimFloat.ltb n b = PrimFloat.ltb h b.
Proof.
  intros [sh Hh]%is_zero_true [sn Hn]%is_zero_true.
  rewrite !FloatAxioms.ltb_spec, Hh, Hn. reflexivity.
Qed.

End FloatOrder.

(** ** [Math.max] stays at or above any bound one of its arguments reaches *)

Section MathMax.

Variable bound : float.

Lemma max_step_is_nan h n :
  PrimFloat.is_nan h = false -> PrimFloat.is_nan n = false ->
  PrimFloat.is_nan (max_step h n) = false.
Proof.
  intros Hh Hn. unfold max_step.
  destruct (is_pos_zero n && is_neg_zero h); [assumption|].
  destruct (PrimFloat.ltb h n); assumption.
Qed.

Lemma max_step_keeps h n :
  PrimFloat.ltb h bound = false ->
  PrimFloat.ltb (max_step h n) bound = false.
Proof.
  intros Hh. unfold max_step.
  destruct (is_pos_zero n && is_neg_zero h) eqn:Z.
  - apply andb_prop in Z as [Zn Zh].
    apply andb_prop in Zn as [Zn _]. apply andb_prop in Zh as [Zh _].
    rewrite (ltb_zero_irrelevant h n bound Zh Zn). exact Hh.
  - destruct (PrimFloat.ltb h n) eqn:L; [|exact Hh].
    destruct (PrimFloat.ltb n bound) eqn:B; [|reflexivity].
    rewrite FloatAxioms.ltb_spec in *.
    rewrite (SFltb_trans _ _ _ L B) in Hh. discriminate Hh.
Qed.

Lemma max_step_enters h n :
  PrimFloat.is_nan n = false ->
  PrimFloat.ltb n bound = false ->
  PrimFloat.ltb (max_step h n) bound = false.
Proof.
  intros Nn Hn. unfold max_step.
  destruct (is_pos_zero n && is_neg_zero h); [exact Hn|].
  destruct (PrimFloat.ltb h n) eqn:L; [exact Hn|].
  destruct (PrimFloat.ltb h bound) eqn:B; [|reflexivity].
  rewrite FloatAxioms.ltb_spec in *.
  rewrite (SFltb_below_trans _ _ _ B Hn (is_nan_false _ Nn)) in L.
  discriminate L.
Qed.

Lemma fold_max_step_keeps values : forall h,
  PrimFloat.ltb h bound = false ->
  PrimFloat.ltb (fold_left max_step values h) bound = false.
Proof.
  induction values as [|v values IH]; intros h Hh; simpl; [exact Hh|].
  apply IH, max_step_keeps, Hh.
Qed.

Lemma fold_max_step_reaches values x : forall h,
  In x values ->
  existsb PrimFloat.is_nan values = false ->
  PrimFloat.ltb x bound = false ->
  PrimFloat.ltb (fold_left max_step values h) bound = false.
Proof.
  induction values as [|v values IH]; intros h Hin Hnan Hx; [destruct Hin|].
  simpl in Hnan. apply orb_false_elim in Hnan as [Nv Nrest].
  simpl. destruct Hin as [->|Hin].
  - apply fold_max_step_keeps, max_step_enters; assumption.
  - apply IH; assumption.
Qed.

Lemma Math_max_reaches values x :
  In x values ->
  PrimFloat.ltb x bound = false ->
  PrimFloat.ltb (Math_max values) bound = false.
Proof.
  intros Hin Hx. unfold Math_max.
  destruct (existsb PrimFloat.is_nan values) eqn:N.
  - rewrite FloatAxioms.ltb_spec.
    replace (Prim2SF PrimFloat.nan) with S754_nan by (vm_compute; reflexivity).
    reflexivity.
  - eapply fold_max_step_reaches; eassumption.
Qed.

End MathMax.

(** ** The detector *)

Lemma analyzeBuffer_true_iff now buffer :
  analyzeBuffer now buffer = true <->
  (10 <= List.length buffer
   /\ 5 <= List.length (recentReadings now buffer)
   /\ 3 <= List.length (highGReadings (recentReadings now buffer))
   /\ PrimFloat.ltb (calculateRotationChange (recentReadings now buffer))
                    ROTATION_THRESHOLD = false)%nat.
Proof.
  unfold analyzeBuffer.
  destruct (Nat.ltb_spec (List.length buffer) 10);
  destruct (Nat.ltb_spec (List.length (recentReadings now buffer)) 5);
  destruct (Nat.ltb_spec (List.length (highGReadings (recentReadings now buffer))) 3);
  destruct (PrimFloat.ltb (calculateRotationChange (recentReadings now buffer))
                          ROTATION_THRESHOLD);
  split; intros; try discriminate; try tauto;
  try (repeat split; try reflexivity; lia);
  try (exfalso; lia); try (exfalso; intuition discriminate).
Qed.

Lemma filter_all {A : Type} (p : A -> bool) (l : list A) :
  Forall (fun x => p x = true) l -> filter p l = l.
Proof.
  induction 1 as [|x l Hx _ IH]; simpl; [reflexivity|].
  rewrite Hx, IH. reflexivity.
Qed.

Lemma isHighG_of_magnitude_5 r : magnitudeOf r = 5%float -> isHighG r = true.
Proof.
  unfold isHighG, magnitudeOf. intros ->. vm_compute. reflexivity.
Qed.

(** C1, as the code has it: scenario A is detected once the buffer holds
    at least 10 samples.  For a buffer of at least 10 samples of which
    exactly 6 lie within the last 100 ms, each of the six of magnitude
    5.0 g and the rotation change between the first and the last of them
    being 120 on some axis, [analyzeBuffer] returns [true]. *)
Theorem scenario_A_detected now buffer first rest :
  (10 <= List.length buffer)%nat ->
  recentReadings now buffer = first :: rest ->
  List.length (first :: rest) = 6%nat ->
  Forall (fun r => magnitudeOf r = 5%float) (first :: rest) ->
  (Math_abs (rotationAlpha (List.last (first :: rest) first) - rotationAlpha first) = 120
   \/ Math_abs (rotationBeta (List.last (first :: rest) first) - rotationBeta first) = 120
   \/ Math_abs (rotationGamma (List.last (first :: rest) first) - rotationGamma first) = 120)%float ->
  analyzeBuffer now buffer = true.
Proof.
  intros Hlen Hrecent Hsix Hmag Hrot.
  apply analyzeBuffer_true_iff. rewrite Hrecent.
  unfold highGReadings. rewrite filter_all.
  2:{ eapply Forall_impl; [|exact Hmag]. apply isHighG_of_magnitude_5. }
  rewrite Hsix. repeat split; try lia.
  unfold calculateRotationChange.
  replace (List.length (first :: rest) <? 2)%nat with false
    by (rewrite Hsix; reflexivity).
  cbv zeta.
  assert (B : PrimFloat.ltb 120 ROTATION_THRESHOLD = false)
    by (vm_compute; reflexivity).
  destruct Hrot as [E|[E|E]]; rewrite E; clear E;
    apply (Math_max_reaches _ _ 120%float); simpl; tauto.
Qed.

Lemma scenario_A_detected_witness :
  analyzeBuffer 1100 (bufferAfter (tenSamples 120)) = true.
Proof.
  apply (scenario_A_detected 1100 (bufferAfter (tenSamples 120))
           (mkReading 1000 3 4 0 0 0 0)
           (tl (bufferAfter (sixImpacts 120)))).
  - vm_compute. lia.
  - vm_compute. reflexivity.
  - reflexivity.
  - repeat constructor.
  - left. vm_compute. reflexivity.
Defined.

(** C1 as written fails: six samples pushed into a fresh session, all
    within 100 ms, all of magnitude 5.0 g, rotation change 120, and the
    detector answers [false]. *)
Lemma scenario_A_six_samples_undetected :
  List.length (bufferAfter (sixImpacts 120)) = 6%nat
  /\ forallb (fun r => (1100 - timestamp r <=? 100)%Z
                       && PrimFloat.eqb (magnitudeOf r) 5)
             (bufferAfter (sixImpacts 120)) = true
  /\ calculateRotationChange (bufferAfter (sixImpacts 120)) = 120%float
  /\ analyzeBuffer 1100 (bufferAfter (sixImpacts 120)) = false
  /\ detectedAfter (sixImpacts 120) = false.
Proof. vm_compute. repeat split; reflexivity. Qed.

(** C2, as the code has it: [analyzeBuffer] returns [true] exactly when
    the buffer holds at least 10 samples, at least 5 of them lie in the
    window, at least 3 of those exceed 4.0 g and the largest endpoint
    rotation change is not below 90 (90 itself passes); an input below
    any one threshold, such as the rotation change 50 of scenario B,
    gives [false]. *)
Theorem detector_gates now buffer :
  let recent := recentReadings now buffer in
  let rotationChange := calculateRotationChange recent in
  (analyzeBuffer now buffer = true <->
     (10 <= List.length buffer)%nat
     /\ (5 <= List.length recent)%nat
     /\ (3 <= List.length (highGReadings recent))%nat
     /\ PrimFloat.ltb rotationChange ROTATION_THRESHOLD = false)
  /\ ((List.length recent < 5)%nat -> analyzeBuffer now buffer = false)
  /\ ((List.length (highGReadings recent) < 3)%nat -> analyzeBuffer now buffer = false)
  /\ (PrimFloat.ltb rotationChange ROTATION_THRESHOLD = true ->
      analyzeBuffer now buffer = false)
  /\ (rotationChange = 50%float -> analyzeBuffer now buffer = false).
Proof.
  cbv zeta. pose proof (analyzeBuffer_true_iff now buffer) as I.
  split; [exact I|].
  repeat split; intros H; apply not_true_is_false; intros T;
    apply I in T; destruct T as (_ & T5 & T3 & TR).
  - lia.
  - lia.
  - rewrite H in TR. discriminate TR.
  - rewrite H in TR. vm_compute in TR. discriminate TR.
Qed.

Lemma detector_gates_witness :
  analyzeBuffer 1100 (bufferAfter (tenSamples 50)) = false.
Proof.
  apply (detector_gates 1100 (bufferAfter (tenSamples 50))).
  vm_compute. reflexivity.
Defined.

(** C2 as written fails both ways: with a rotation change of exactly 90
    the detector answers [true] although the change does not exceed 90,
    and with six samples it answers [false] although the three gates
    pass. *)
Lemma three_gates_not_equivalent :
  analyzeBuffer 1100 (bufferAfter (tenSamples 90)) = true
  /\ threeGates 1100 (bufferAfter (tenSamples 90)) = false
  /\ analyzeBuffer 1100 (bufferAfter (sixImpacts 120)) = false
  /\ threeGates 1100 (bufferAfter (sixImpacts 120)) = true.
Proof. vm_compute. repeat split; reflexivity. Qed.

(** C10: a buffer of fewer than 10 samples is never a crash, whatever the
    samples are; and a positive answer needs both the 10 samples in the
    buffer and the 5 samples in the window. *)
Theorem fewer_than_ten_samples now buffer :
  ((List.length buffer < 10)%nat -> analyzeBuffer now buffer = false)
  /\ (analyzeBuffer now buffer = true ->
      (10 <= List.length buffer)%nat
      /\ (5 <= List.length (recentReadings now buffer))%nat).
Proof.
  split.
  - intros H. unfold analyzeBuffer.
    apply Nat.ltb_lt in H. rewrite H. reflexivity.
  - intros H. apply analyzeBuffer_true_iff in H. tauto.
Qed.

Lemma fewer_than_ten_samples_witness :
  analyzeBuffer 1100 (bufferAfter (sixImpacts 120)) = false.
Proof.
  apply (fewer_than_ten_samples 1100 (bufferAfter (sixImpacts 120))).
  vm_compute. lia.
Defined.

(** ** The sample buffer *)

Lemma pushReading_length reading buffer :
  (List.length buffer <= BUFFER_SIZE)%nat ->
  (List.length (pushReading reading buffer) <= BUFFER_SIZE)%nat.
Proof.
  intros H. unfold pushReading.
  destruct (Nat.ltb_spec BUFFER_SIZE (List.length (buffer ++ [reading]))) as [L|L];
    [|exact L].
  rewrite length_app in L. simpl in L.
  destruct buffer as [|oldest rest]; simpl in *; [lia|].
  rewrite length_app. simpl. lia.
Qed.

Lemma perform_bounded s a :
  (List.length (sensorBuffer s) <= BUFFER_SIZE)%nat ->
  (List.length (sensorBuffer (perform s a)) <= BUFFER_SIZE)%nat.
Proof.
  intros H. destruct a as [t_read t_analyze event| | |]; simpl;
    try (exact H); try (unfold BUFFER_SIZE; lia).
  unfold handleMotionEvent.
  destruct (acceleration event), (rotationRate event); try exact H.
  simpl. apply pushReading_length, H.
Qed.

Lemma fold_perform_bounded actions : forall s,
  (List.length (sensorBuffer s) <= BUFFER_SIZE)%nat ->
  (List.length (sensorBuffer (fold_left perform actions s)) <= BUFFER_SIZE)%nat.
Proof.
  induction actions as [|a actions IH]; intros s H; simpl; [exact H|].
  apply IH, perform_bounded, H.
Qed.

(** C8: whatever happens to a session, its buffer never holds more than
    100 samples; a sample pushed into a full buffer evicts the oldest one
    and goes last, a sample pushed into a buffer that is not full only
    goes last. *)
Theorem buffer_bounded_fifo :
  (forall actions, (List.length (sensorBuffer (run actions)) <= 100)%nat)
  /\ (forall reading oldest rest,
        List.length (oldest :: rest) = 100%nat ->
        pushReading reading (oldest :: rest) = rest ++ [reading])
  /\ (forall reading buffer,
        (List.length buffer < 100)%nat ->
        pushReading reading buffer = buffer ++ [reading])
  /\ (forall t_read t_analyze acc rot s,
        exists reading,
          timestamp reading = t_read
          /\ sensorBuffer (handleMotionEvent t_read t_analyze
                             (mkEvent (Some acc) (Some rot)) s)
             = pushReading reading (sensorBuffer s)).
Proof.
  repeat split.
  - intros actions. apply fold_perform_bounded. simpl. lia.
  - intros reading oldest rest H. unfold pushReading.
    replace (BUFFER_SIZE <? List.length ((oldest :: rest) ++ [reading]))%nat
      with true; [reflexivity|].
    symmetry. apply Nat.ltb_lt. rewrite length_app, H. simpl.
    unfold BUFFER_SIZE. lia.
  - intros reading buffer H. unfold pushReading.
    replace (BUFFER_SIZE <? List.length (buffer ++ [reading]))%nat
      with false; [reflexivity|].
    symmetry. apply Nat.ltb_ge. rewrite length_app. simpl.
    unfold BUFFER_SIZE. lia.
  - intros. eexists. split; [|reflexivity]. reflexivity.
Qed.

Lemma buffer_bounded_fifo_witness :
  pushReading (mkReading 100 0 0 0 0 0 0) fullBuffer
  = tl fullBuffer ++ [mkReading 100 0 0 0 0 0 0].
Proof.
  destruct buffer_bounded_fifo as (_ & evict & _).
  apply (evict (mkReading 100 0 0 0 0 0 0) (mkReading 0 0 0 0 0 0 0) (tl fullBuffer)).
  reflexivity.
Defined.

(** ** The window *)

Lemma filter_subsequence {A : Type} (p : A -> bool) (l : list A) :
  subsequence (filter p l) l.
Proof.
  induction l as [|x l IH]; simpl; [constructor|].
  destruct (p x); constructor; exact IH.
Qed.

Lemma recentReadings_suffix now buffer :
  chronological buffer ->
  exists older,
    buffer = older ++ recentReadings now buffer
    /\ Forall (fun r => (100 < now - timestamp r)%Z) older.
Proof.
  unfold chronological, recentReadings, SUSTAINED_DURATION_MS.
  induction 1 as [|r rest Hrest IH Hr]; simpl.
  - exists []. split; [reflexivity|constructor].
  - destruct (Z.leb_spec (now - timestamp r) 100) as [In|Out].
    + exists []. split; [|constructor]. simpl. f_equal.
      symmetry. apply filter_all.
      eapply Forall_impl; [|exact Hr].
      intros r' Hle. apply Z.leb_le. simpl in Hle. lia.
    + destruct IH as (older & E & F).
      exists (r :: older). split.
      * simpl. f_equal. exact E.
      * constructor; assumption.
Qed.

Lemma window_last older latest d :
  window d (older ++ [latest])
  = filter (fun r => (timestamp latest - timestamp r <=? d)%Z) (older ++ [latest]).
Proof.
  unfold window. rewrite rev_app_distr. reflexivity.
Qed.

(** C9, as the code has it: the window is taken from the clock read by
    the detector, not from the most recent sample, and its length is
    fixed at 100 ms.  [recentReadings now buffer] is the
    order-preserving subsequence of exactly the samples stamped at most
    100 ms before [now]; when the buffer is in time-stamp order it is a
    suffix of the buffer; and when [now] is the stamp of the most recent
    sample it is the window the design describes. *)
Theorem window_of_the_clock now buffer :
  subsequence (recentReadings now buffer) buffer
  /\ (forall r, In r (recentReadings now buffer) <->
                In r buffer /\ (now - timestamp r <= 100)%Z)
  /\ (chronological buffer ->
      exists older,
        buffer = older ++ recentReadings now buffer
        /\ Forall (fun r => (100 < now - timestamp r)%Z) older)
  /\ (forall older latest,
        buffer = older ++ [latest] -> now = timestamp latest ->
        recentReadings now buffer = window 100 buffer).
Proof.
  split; [|split; [|split]].
  - apply filter_subsequence.
  - intros r. unfold recentReadings, SUSTAINED_DURATION_MS.
    rewrite filter_In, Z.leb_le. reflexivity.
  - apply recentReadings_suffix.
  - intros older latest -> ->. rewrite window_last. reflexivity.
Qed.

Lemma window_of_the_clock_witness :
  exists older,
    bufferAfter (tenSamples 120)
    = older ++ recentReadings 1100 (bufferAfter (tenSamples 120))
    /\ Forall (fun r => (100 < 1100 - timestamp r)%Z) older.
Proof.
  destruct (window_of_the_clock 1100 (bufferAfter (tenSamples 120)))
    as (_ & _ & suffix & _).
  apply suffix. vm_compute.
  repeat (constructor; [|repeat (constructor; try discriminate)]).
  constructor.
Defined.

(** C9 as written fails: analysed one millisecond after the latest sample
    was stamped, the window keeps one sample, while two lie within
    100 ms of the latest one. *)
Lemma window_not_from_latest_sample :
  recentReadings 101 twoSamples = [mkReading 100 0 0 0 0 0 0]
  /\ window 100 twoSamples = twoSamples
  /\ sensorBuffer (handleMotionEvent 100 101 quietEvent
                     (mkSession [mkReading 0 0 0 0 0 0 0] (mkState false true None)))
     = twoSamples.
Proof. vm_compute. repeat split; reflexivity. Qed.

(* ================================================================== *)
(** * Properties of the evidence capture                               *)
(* ================================================================== *)

Section EvidenceFacts.
Import Text JSON EvidenceCapture.
Local Open Scope string_scope.

Variable number : Type.
Variable Number_toJSON : number -> string.

Lemma packetWithoutHash_unsealed (u : TrustPacket number) :
  hash u = None -> packetWithoutHash u = u.
Proof. destruct u; simpl; intros ->; reflexivity. Qed.

Lemma packetWithoutHash_seal (b : Browser number) (u : TrustPacket number) :
  packetWithoutHash (seal Number_toJSON b u) = packetWithoutHash u.
Proof. reflexivity. Qed.

(** C3, as the code has it: for an unsealed record, sealing changes no
    field and attaches, when [crypto.subtle.digest] answers, the
    lower-case hexadecimal SHA-256 digest of the UTF-8 bytes of
    [JSON.stringify] of the record without its hash field, and, when it
    throws, the string [hash_unavailable]; on one platform, records with
    identical field values get identical digests. *)
Theorem seal_digest (b : Browser number) (u : TrustPacket number) :
  hash u = None ->
  packetWithoutHash (seal Number_toJSON b u) = u
  /\ hash (seal Number_toJSON b u)
     = Some (if subtleCrypto b
             then sha256Hex (JSON_stringify Number_toJSON 0
                               (packetWithoutHash (seal Number_toJSON b u)))
             else "hash_unavailable")
  /\ (forall u' : TrustPacket number,
        hash u' = None ->
        eventId u' = eventId u -> timestamp u' = timestamp u ->
        location u' = location u -> evidence u' = evidence u ->
        metadata u' = metadata u ->
        hash (seal Number_toJSON b u') = hash (seal Number_toJSON b u)).
Proof.
  intros Hu. split; [|split].
  - rewrite packetWithoutHash_seal. apply packetWithoutHash_unsealed, Hu.
  - rewrite packetWithoutHash_seal, (packetWithoutHash_unsealed u Hu).
    simpl. unfold generateHash, sha256Hex.
    destruct (subtleCrypto b); reflexivity.
  - intros u' Hu' E1 E2 E3 E4 E5.
    replace u' with u; [reflexivity|].
    destruct u, u'; simpl in *; congruence.
Qed.

(** C7: [captureEvidence] rejects exactly when the camera gives no
    picture, and then the view holds no packet; with a picture it
    resolves, a failed geolocation leaving the three location fields
    [null] and a failed microphone the signature [audio_unavailable]. *)
Theorem only_the_photo_is_fatal (b : Browser number) :
  ((exists message, captureEvidence Number_toJSON b = Rejected message)
   <-> (forall dataURL, camera b <> Captured dataURL))
  /\ (forall message,
        captureEvidence Number_toJSON b = Rejected message ->
        trustPacket (performCapture Number_toJSON b) = None
        /\ error (performCapture Number_toJSON b) = Some message)
  /\ (forall dataURL,
        camera b = Captured dataURL ->
        exists packet,
          captureEvidence Number_toJSON b = Resolved packet
          /\ trustPacket (performCapture Number_toJSON b) = Some packet
          /\ photo (evidence packet) = dataURL
          /\ (geolocation b = GeolocationMissing \/ geolocation b = GeolocationError ->
              location packet = nullLocation)
          /\ (microphone b = MicrophoneFailed ->
              audioSignature (evidence packet) = "audio_unavailable")).
Proof.
  split; [|split].
  - unfold captureEvidence, capturePhoto, getCurrentLocation, generateAudioSignature.
    destruct (camera b), (geolocation b), (microphone b);
      split; intros H; try (intros dataURL' E; discriminate E);
      try (eexists; reflexivity);
      try (destruct H as [message H]; discriminate H);
      exfalso; eapply H; reflexivity.
  - intros message H. unfold performCapture. rewrite H. split; reflexivity.
  - intros dataURL H.
    unfold performCapture, captureEvidence, capturePhoto, getCurrentLocation,
      generateAudioSignature.
    rewrite H.
    destruct (geolocation b) eqn:G, (microphone b) eqn:M;
      eexists; repeat split; try reflexivity;
      try (intros [E|E]; discriminate E); try (intros E; discriminate E).
Qed.

(** The text copied for verification is indented; the text that was
    hashed is not. *)
Lemma verification_text_is_not_the_sealed_text (p : TrustPacket number) :
  JSON_stringify Number_toJSON 2 (packetWithoutHash p)
  <> JSON_stringify Number_toJSON 0 (packetWithoutHash p).
Proof.
  unfold JSON_stringify, stringify. simpl. intros H. discriminate H.
Qed.

End EvidenceFacts.

Section EvidenceExamples.
Import Text JSON EvidenceCapture.
Local Open Scope string_scope.

Lemma seal_digest_witness :
  hash (seal Z_toString (cameraOnly true) unsealedExample)
  = Some "a9c82c8bbd2df00b9931cbfa7d400b31887f4541d0210232ac3078c3139712f7".
Proof.
  destruct (seal_digest Z Z_toString (cameraOnly true) unsealedExample)
    as (_ & digest & _).
  - reflexivity.
  - rewrite digest. vm_compute. reflexivity.
Defined.

(** C3 as written fails: where [crypto.subtle.digest] throws, the hash
    attached to the record is not the SHA-256 digest of its
    serialization. *)
Lemma seal_without_subtle_crypto :
  hash unsealedExample = None
  /\ hash (seal Z_toString (cameraOnly false) unsealedExample)
     = Some "hash_unavailable"
  /\ sha256Hex (JSON_stringify Z_toString 0 unsealedExample)
     = "a9c82c8bbd2df00b9931cbfa7d400b31887f4541d0210232ac3078c3139712f7".
Proof. vm_compute. repeat split; reflexivity. Qed.

Lemma only_the_photo_is_fatal_witness :
  trustPacket (performCapture Z_toString cameraRefused) = None
  /\ error (performCapture Z_toString cameraRefused)
     = Some "Camera access denied or not available".
Proof.
  destruct (only_the_photo_is_fatal Z Z_toString cameraRefused)
    as (_ & rejected & _).
  apply rejected. reflexivity.
Defined.

(** C4 on a sealed record: the text [handleCopyVerification] copies is
    not the text whose digest is the record's hash, and its digest is
    another one. *)
Theorem copied_verification_text_mismatch :
  exists packet text,
    captureEvidence Z_toString (cameraOnly true) = Resolved packet
    /\ handleCopyVerification Z_toString
         (performCapture Z_toString (cameraOnly true)) = Some text
    /\ hash packet
       = Some (sha256Hex (JSON_stringify Z_toString 0 (packetWithoutHash packet)))
    /\ String.eqb text (JSON_stringify Z_toString 0 (packetWithoutHash packet))
       = false
    /\ hash packet
       = Some "a9c82c8bbd2df00b9931cbfa7d400b31887f4541d0210232ac3078c3139712f7"
    /\ sha256Hex text
       = "1c5e5e53a13daf1dafab3499e36f0fc88e2dfe697cdf9b285fc00e3d10cf827d".
Proof.
  eexists. eexists. split; [vm_compute; reflexivity|].
  split; [vm_compute; reflexivity|].
  vm_compute. repeat split; reflexivity.
Qed.

End EvidenceExamples.

(* ================================================================== *)
(** * Properties of the state machine                                  *)
(* ================================================================== *)

Section StateMachineFacts.
Import BodaBox.

Lemma step_settled a e : settled (step a e).
Proof.
  destruct a as [[| |] [|] [|[|n]]], e; unfold settled; simpl;
    try reflexivity; try lia; exact I.
Qed.

Lemma reachable_settled a : reachable a -> settled a.
Proof.
  destruct 1 as [|a e _]; [reflexivity|apply step_settled].
Qed.

(** The shape of a reachable state: its three cells, and what [settled]
    says of them. *)
Ltac settle_cases a H :=
  apply reachable_settled in H; unfold settled in H;
  destruct a as [st flag cd]; simpl in H;
  destruct st;
    [subst flag
    | destruct cd as [|cd]; [exfalso; lia|]; destruct flag
    | destruct flag].

(** C5: from a reachable state an event either leaves [appState] as it
    is or makes one of four moves: ARMED to CONFIRMING on a detection or
    the emergency button, CONFIRMING to ARMED on cancel, CONFIRMING to
    TRIGGERED on the timer firing with the countdown at 1, TRIGGERED to
    ARMED on reset.  A detection outside ARMED changes nothing of it; each
    of the four moves is taken when its event arrives, the third after
    five firings of the timer and not before. *)
Theorem only_four_transitions a e :
  reachable a ->
  (appState (step a e) = appState a
   \/ (appState a = ARMED /\ appState (step a e) = CONFIRMING
       /\ (e = CrashDetected \/ e = EmergencyButton)
       /\ countdown (step a e) = 5%nat)
   \/ (appState a = CONFIRMING /\ appState (step a e) = ARMED
       /\ e = CancelButton)
   \/ (appState a = CONFIRMING /\ appState (step a e) = TRIGGERED
       /\ e = TimerFired /\ countdown a = 1%nat)
   \/ (appState a = TRIGGERED /\ appState (step a e) = ARMED
       /\ e = ResetButton))
  /\ (appState a <> ARMED -> appState (step a CrashDetected) = appState a)
  /\ (appState a = ARMED ->
      appState (step a CrashDetected) = CONFIRMING
      /\ appState (step a EmergencyButton) = CONFIRMING
      /\ appState (steps (step a CrashDetected) (repeat TimerFired 4)) = CONFIRMING
      /\ appState (steps (step a CrashDetected) (repeat TimerFired 5)) = TRIGGERED)
  /\ (appState a = CONFIRMING -> appState (step a CancelButton) = ARMED)
  /\ (appState a = TRIGGERED -> appState (step a ResetButton) = ARMED).
Proof.
  intros H. split; [|split; [|split; [|split]]].
  - settle_cases a H; destruct e; try (left; reflexivity);
      try (right; left; repeat split; try reflexivity; tauto);
      try (right; right; left; repeat split; reflexivity);
      try (repeat right; repeat split; reflexivity);
      (destruct cd as [|cd]; [|left; reflexivity]);
      right; right; right; left; repeat split; reflexivity.
  - settle_cases a H; simpl; intros N; try reflexivity;
      exfalso; apply N; reflexivity.
  - settle_cases a H; intros E; simpl in E; try discriminate E.
    repeat split; reflexivity.
  - settle_cases a H; intros E; simpl in E; try discriminate E; reflexivity.
  - settle_cases a H; intros E; simpl in E; try discriminate E; reflexivity.
Qed.

Lemma only_four_transitions_witness :
  appState (step initialApp EmergencyButton) = CONFIRMING
  /\ appState (steps initialApp (CrashDetected :: repeat TimerFired 5)) = TRIGGERED.
Proof.
  destruct (only_four_transitions initialApp EmergencyButton reachable_initial)
    as (_ & _ & armed & _).
  destruct (armed eq_refl) as (_ & button & _ & timer).
  split; [exact button|exact timer].
Defined.

End StateMachineFacts.

(* ================================================================== *)
(** * Properties of the offline queue                                  *)
(* ================================================================== *)

Section QueueFacts.
Import OfflineQueue.

Lemma processQueue_failing item :
  type item = emergency_sms -> (retryCount item < 2)%nat ->
  processQueue true alwaysThrows (Some [item])
  = (Some [item], [Dispatched (id item); Failed (id item)]).
Proof.
  intros T R. destruct item as [i t d ts r]. simpl in T, R. subst t.
  destruct r as [|[|r]]; [reflexivity|reflexivity|lia].
Qed.

(** A lone item whose dispatch always throws stays queued with its retry
    count unchanged, and every drain dispatches it again. *)
Lemma failing_item_is_retried_forever item n :
  type item = emergency_sms -> (retryCount item < 2)%nat ->
  fst (drains (failingDrains n) (Some [item])) = Some [item]
  /\ dispatchCount (id item) (snd (drains (failingDrains n) (Some [item]))) = n.
Proof.
  intros T R. induction n as [|n [IH1 IH2]]; [split; reflexivity|].
  unfold failingDrains in *. simpl.
  rewrite (processQueue_failing item T R).
  destruct (drains (repeat (true, alwaysThrows) n) (Some [item])) as [s l].
  simpl in *. split; [exact IH1|].
  unfold dispatchCount in *. simpl. rewrite String.eqb_refl. simpl.
  rewrite IH2. reflexivity.
Qed.

(** C6 on a lone SMS queued while offline whose dispatch always throws:
    after three failed drains it is still queued, with retry count 0,
    and the fourth drain dispatches it a fourth time. *)
Theorem failed_item_dispatched_a_fourth_time :
  snd (addToQueue 1700000000000 "k3j9x0q2a" emergency_sms
         "bodabox_1700000001651_k3j9x0q2a" None) = Some [queuedSMS]
  /\ fst (drains (failingDrains 3) (Some [queuedSMS])) = Some [queuedSMS]
  /\ dispatchCount (id queuedSMS)
       (snd (drains (failingDrains 3) (Some [queuedSMS]))) = 3%nat
  /\ fst (drains (failingDrains 4) (Some [queuedSMS])) = Some [queuedSMS]
  /\ dispatchCount (id queuedSMS)
       (snd (drains (failingDrains 4) (Some [queuedSMS]))) = 4%nat
  /\ existsb (fun entry => match entry with
                           | RemovedAfterRetries _ => true
                           | _ => false
                           end)
       (snd (drains (failingDrains 4) (Some [queuedSMS]))) = false.
Proof. vm_compute. repeat split; reflexivity. Qed.

(** *** What the loop does get right *)

Ltac loop_cases send item :=
  unfold processItem; cbv zeta;
  destruct (type item);
    [destruct (send item);
       [|match goal with
         | |- context [if ?c then _ else _] => destruct c
         end]|].

Lemma processItem_keeps send d item :
  (forall e, In e (log d) -> In e (log (processItem send d item)))
  /\ (forall i, In i (processedIds d) -> In i (processedIds (processItem send d item))).
Proof.
  loop_cases send item;
    simpl; split; intros x Hx; try apply in_or_app; auto.
Qed.

Lemma processItem_attempts send d item :
  In (attempt item) (log (processItem send d item)).
Proof.
  unfold attempt. loop_cases send item;
    simpl; apply in_or_app; right; simpl; auto.
Qed.

Lemma processItem_marks send d item :
  succeeds send item = true ->
  In (id item) (processedIds (processItem send d item)).
Proof.
  unfold processItem, succeeds.
  destruct (type item); [intros ->|intros _];
    simpl; apply in_or_app; right; simpl; auto.
Qed.

Lemma fold_processItem_keeps send queue : forall d,
  (forall e, In e (log d) -> In e (log (fold_left (processItem send) queue d)))
  /\ (forall i, In i (processedIds d) ->
                In i (processedIds (fold_left (processItem send) queue d))).
Proof.
  induction queue as [|item queue IH]; intros d; simpl; [tauto|].
  destruct (IH (processItem send d item)) as [IHl IHp].
  destruct (processItem_keeps send d item) as [Kl Kp].
  split; auto.
Qed.

Lemma fold_processItem_reaches send queue item : forall d,
  In item queue ->
  In (attempt item) (log (fold_left (processItem send) queue d))
  /\ (succeeds send item = true ->
      In (id item) (processedIds (fold_left (processItem send) queue d))).
Proof.
  induction queue as [|x queue IH]; intros d Hin; [destruct Hin|].
  simpl. destruct Hin as [->|Hin]; [|apply IH, Hin].
  destruct (fold_processItem_keeps send queue (processItem send d item)) as [Kl Kp].
  split.
  - apply Kl, processItem_attempts.
  - intros S. apply Kp, processItem_marks, S.
Qed.

Lemma includes_In ids x : In x ids -> includes ids x = true.
Proof.
  intros H. unfold includes. apply existsb_exists.
  exists x. split; [exact H|apply String.eqb_refl].
Qed.

(** Once online, a drain takes up every queued item, the one just added
    included. *)
Lemma queued_item_is_attempted send storage item :
  In item (getQueue storage) ->
  In (attempt item) (snd (processQueue true send storage)).
Proof.
  intros Hin. unfold processQueue. simpl.
  destruct (getQueue storage) as [|x queue] eqn:Q; [destruct Hin|].
  pose proof (fold_processItem_reaches send (x :: queue) item (mkDrain [] [] []) Hin)
    as [A _].
  destruct (processedIds (fold_left (processItem send) (x :: queue) (mkDrain [] [] [])));
    exact A.
Qed.

Lemma added_item_is_attempted send now suffix type data storage :
  exists item,
    id item = fst (addToQueue now suffix type data storage)
    /\ In (attempt item)
          (snd (processQueue true send (snd (addToQueue now suffix type data storage)))).
Proof.
  exists (mkItem (fst (addToQueue now suffix type data storage)) type data now 0).
  split; [reflexivity|].
  apply queued_item_is_attempted. simpl. apply in_or_app. right. left. reflexivity.
Qed.

(** An item whose dispatch succeeds is gone from the stored queue. *)
Lemma successful_item_is_removed send storage item :
  In item (getQueue storage) ->
  succeeds send item = true ->
  forall x, In x (getQueue (fst (processQueue true send storage))) ->
            id x <> id item.
Proof.
  intros Hin S x. unfold processQueue. simpl.
  destruct (getQueue storage) as [|y queue] eqn:Q; [destruct Hin|].
  pose proof (fold_processItem_reaches send (y :: queue) item (mkDrain [] [] []) Hin)
    as [_ P]. specialize (P S).
  destruct (processedIds (fold_left (processItem send) (y :: queue) (mkDrain [] [] [])))
    as [|i ids] eqn:E; [destruct P|].
  pose proof (includes_In _ _ P) as C.
  cbn [fst getQueue]. intros Hx E'. apply filter_In in Hx as [_ Hx].
  rewrite E', C in Hx. discriminate Hx.
Qed.

(** The third failure does remove and report an item whose two earlier
    failures were stored. *)
Lemma third_failure_removes item :
  type item = emergency_sms -> retryCount item = 2%nat ->
  processQueue true alwaysThrows (Some [item])
  = (Some [], [Dispatched (id item); Failed (id item);
               RemovedAfterRetries (id item)]).
Proof.
  intros T R. destruct item as [i t d ts r]. simpl in T, R. subst t r.
  unfold processQueue. simpl. unfold includes. simpl.
  rewrite String.eqb_refl. reflexivity.
Qed.

End QueueFacts.

(* ================================================================== *)
(** * Further properties of the sensor hook                            *)
(* ================================================================== *)

Section SensorFurther.
Import SensorNotions.


Lemma perform_keeps_detection s a :
  keepsDetection a = true ->
  isCrashDetected (state s) = true ->
  isCrashDetected (state (perform s a)) = true.
Proof.
  destruct a as [t_read t_analyze event| | |]; simpl; try discriminate;
    intros _ H; [|exact H].
  unfold handleMotionEvent.
  destruct (acceleration event), (rotationRate event); try exact H.
  simpl. destruct (analyzeBuffer _ _); simpl; [reflexivity|exact H].
Qed.

(** X2: a raised detection flag is latched: no motion event and no stop
    lowers it; only [startMonitoring] and [resetCrashDetection] do. *)
Theorem detection_is_latched actions : forall s,
  forallb keepsDetection actions = true ->
  isCrashDetected (state s) = true ->
  isCrashDetected (state (fold_left perform actions s)) = true.
Proof.
  induction actions as [|a actions IH]; intros s K H; simpl; [exact H|].
  simpl in K. apply andb_prop in K as [Ka K].
  apply IH; [exact K|]. apply perform_keeps_detection; assumption.
Qed.

Lemma detection_is_latched_witness :
  isCrashDetected
    (state (fold_left perform [quietAt 1200; Stop; quietAt 1300]
              (run (Start :: tenSamples 120)))) = true.
Proof.
  apply (detection_is_latched [quietAt 1200; Stop; quietAt 1300]); reflexivity.
Defined.

Lemma or_zero_is_number v : PrimFloat.is_nan (or_zero v) = false.
Proof.
  destruct v as [x|]; [|reflexivity]. simpl.
  destruct (PrimFloat.is_nan x) eqn:N; [reflexivity|].
  destruct (PrimFloat.is_zero x); [reflexivity|exact N].
Qed.

Lemma pushReading_Forall (P : SensorReading -> Prop) reading buffer :
  P reading -> Forall P buffer -> Forall P (pushReading reading buffer).
Proof.
  intros Hr Hb. unfold pushReading.
  assert (F : Forall P (buffer ++ [reading])).
  { apply Forall_app. split; [exact Hb|]. constructor; [exact Hr|constructor]. }
  destruct (BUFFER_SIZE <? List.length (buffer ++ [reading]))%nat; [|exact F].
  destruct (buffer ++ [reading]); [constructor|]. simpl.
  inversion F; assumption.
Qed.

Lemma perform_numbers s a :
  Forall (fun r => isNumber r = true) (sensorBuffer s) ->
  Forall (fun r => isNumber r = true) (sensorBuffer (perform s a)).
Proof.
  intros H. destruct a as [t_read t_analyze event| | |]; simpl;
    try exact H; try constructor.
  unfold handleMotionEvent.
  destruct (acceleration event) as [acc|], (rotationRate event) as [rot|];
    try exact H.
  simpl. apply pushReading_Forall; [|exact H].
  unfold isNumber. simpl. rewrite !or_zero_is_number. reflexivity.
Qed.

(** X3: whatever the sensor reports ([null], [NaN], infinities), no
    reading stored in the buffer has a [NaN] component: [x || 0] turns
    [null] and [NaN] into 0. *)
Theorem buffer_holds_numbers actions :
  Forall (fun r => isNumber r = true) (sensorBuffer (run actions)).
Proof.
  unfold run.
  assert (G : forall s,
             Forall (fun r => isNumber r = true) (sensorBuffer s) ->
             Forall (fun r => isNumber r = true)
                    (sensorBuffer (fold_left perform actions s))).
  { induction actions as [|a actions IH]; intros s H; simpl; [exact H|].
    apply IH, perform_numbers, H. }
  apply G. constructor.
Qed.

Lemma pushReading_length_le reading buffer :
  (List.length (pushReading reading buffer) <= S (List.length buffer))%nat.
Proof.
  unfold pushReading.
  destruct (BUFFER_SIZE <? List.length (buffer ++ [reading]))%nat.
  - destruct buffer; simpl; rewrite ?length_app; simpl; lia.
  - rewrite length_app. simpl. lia.
Qed.

Lemma perform_warming_up s a n :
  (List.length (sensorBuffer s) <= n)%nat -> (n < 9)%nat ->
  isCrashDetected (state s) = false ->
  (List.length (sensorBuffer (perform s a)) <= S n)%nat
  /\ isCrashDetected (state (perform s a)) = false.
Proof.
  intros L N F. destruct a as [t_read t_analyze event| | |]; simpl;
    try (split; [lia|assumption || reflexivity]).
  unfold handleMotionEvent.
  destruct (acceleration event) as [acc|], (rotationRate event) as [rot|];
    try (split; [lia|exact F]).
  simpl.
  match goal with
  | |- context [pushReading ?r _] => pose proof (pushReading_length_le r (sensorBuffer s)) as P
  end.
  split; [lia|].
  unfold analyzeBuffer.
  match goal with
  | |- context [(?l <? 10)%nat] => replace (l <? 10)%nat with true
  end.
  - exact F.
  - symmetry. apply Nat.ltb_lt. lia.
Qed.

(** X4: after the buffer has been cleared (a fresh session, a stop or a
    reset) the detection flag cannot rise during the next nine actions,
    however violent the motion: the detector needs ten samples. *)
Theorem no_detection_while_warming_up actions s :
  sensorBuffer s = [] ->
  isCrashDetected (state s) = false ->
  (List.length actions < 10)%nat ->
  isCrashDetected (state (fold_left perform actions s)) = false.
Proof.
  intros E F L.
  assert (G : forall actions s n,
             (List.length (sensorBuffer s) <= n)%nat ->
             isCrashDetected (state s) = false ->
             (n + List.length actions < 10)%nat ->
             isCrashDetected (state (fold_left perform actions s)) = false).
  { clear. induction actions as [|a actions IH]; intros s n Ls F N; simpl;
      [exact F|].
    simpl in N.
    destruct (perform_warming_up s a n Ls ltac:(lia) F) as [L' F'].
    apply (IH _ (S n)); [exact L'|exact F'|lia]. }
  apply (G actions s 0%nat); [rewrite E; simpl; lia|exact F|lia].
Qed.

Lemma no_detection_while_warming_up_witness :
  isCrashDetected
    (state (fold_left perform (sixImpacts 120)
              (resetCrashDetection (run (Start :: tenSamples 120))))) = false.
Proof.
  apply (no_detection_while_warming_up (sixImpacts 120)).
  - reflexivity.
  - reflexivity.
  - simpl. lia.
Defined.

(** *** Time stamps *)

Lemma chronological_app buffer reading :
  chronological buffer ->
  Forall (fun r => (timestamp r <= timestamp reading)%Z) buffer ->
  chronological (buffer ++ [reading]).
Proof.
  unfold chronological. induction 1 as [|r rest Hrest IH Hr]; intros F; simpl.
  - repeat constructor.
  - inversion F as [|? ? Hle Frest]; subst. constructor.
    + apply IH, Frest.
    + apply Forall_app. split; [exact Hr|]. constructor; [exact Hle|constructor].
Qed.

Lemma chronological_tl buffer : chronological buffer -> chronological (tl buffer).
Proof.
  unfold chronological. destruct 1; simpl; [constructor|assumption].
Qed.

Lemma Forall_tl {A : Type} (P : A -> Prop) (l : list A) :
  Forall P l -> Forall P (tl l).
Proof. destruct 1; simpl; [constructor|assumption]. Qed.

(** The buffer is in time-stamp order and no stored stamp is later than a
    stamp still to come. *)
Lemma fold_perform_chronological actions : forall s,
  StronglySorted Z.le (stamps actions) ->
  chronological (sensorBuffer s) ->
  Forall (fun r => Forall (Z.le (timestamp r)) (stamps actions)) (sensorBuffer s) ->
  chronological (sensorBuffer (fold_left perform actions s)).
Proof.
  induction actions as [|a actions IH]; intros s S C F; simpl; [exact C|].
  destruct a as [t_read t_analyze event| | |]; simpl in *.
  - inversion S as [|? ? Srest Sle]; subst.
    apply IH; [exact Srest| |]; unfold handleMotionEvent;
      destruct (acceleration event) as [acc|], (rotationRate event) as [rot|];
      simpl; try exact C;
      try (eapply Forall_impl; [|exact F]; intros r Hr;
           inversion Hr; assumption).
    + unfold pushReading.
      match goal with
      | |- context [sensorBuffer s ++ [?r]] =>
          assert (A : chronological (sensorBuffer s ++ [r]))
      end.
      { apply chronological_app; [exact C|]. simpl.
        eapply Forall_impl; [|exact F]. intros r Hr. inversion Hr; assumption. }
      destruct (_ <? _)%nat; [apply chronological_tl|]; exact A.
    + apply pushReading_Forall; [exact Sle|].
      eapply Forall_impl; [|exact F]. intros r Hr. inversion Hr; assumption.
  - apply IH; assumption.
  - apply IH; [exact S|constructor|constructor].
  - apply IH; [exact S|constructor|constructor].
Qed.

(** X5: when the clock never runs backwards between the readings of a
    run, the buffer is in time-stamp order, and the window of the
    detector is then a suffix of the buffer. *)
Theorem monotone_clock_keeps_order actions now :
  StronglySorted Z.le (stamps actions) ->
  chronological (sensorBuffer (run actions))
  /\ exists older,
       sensorBuffer (run actions)
       = older ++ recentReadings now (sensorBuffer (run actions))
       /\ Forall (fun r => (100 < now - timestamp r)%Z) older.
Proof.
  intros S.
  assert (C : chronological (sensorBuffer (run actions))).
  { unfold run. apply fold_perform_chronological; [exact S| |]; constructor. }
  split; [exact C|]. apply recentReadings_suffix, C.
Qed.

Lemma monotone_clock_keeps_order_witness :
  chronological (sensorBuffer (run (tenSamples 120))).
Proof.
  apply (monotone_clock_keeps_order (tenSamples 120) 1100).
  simpl. repeat (constructor; [|repeat (constructor; try discriminate)]).
  constructor.
Defined.

(** *** Sampling rate *)

Lemma spaced_head d a rest :
  (0 <= d)%Z -> spaced d (a :: rest) ->
  Forall (fun b => (timestamp a + d <= timestamp b)%Z) rest.
Proof.
  intros D. revert a. induction rest as [|b rest IH]; intros a S; [constructor|].
  destruct S as [Hab S]. constructor; [exact Hab|].
  eapply Forall_impl; [|apply (IH b S)]. simpl. intros c Hc. lia.
Qed.

Lemma spaced_tail d a rest : spaced d (a :: rest) -> spaced d rest.
Proof. destruct rest; simpl; tauto. Qed.

Lemma spaced_cons d a rest :
  Forall (fun b => (timestamp a + d <= timestamp b)%Z) rest ->
  spaced d rest -> spaced d (a :: rest).
Proof.
  destruct rest as [|b rest]; simpl; [tauto|].
  intros F S. inversion F; subst. tauto.
Qed.

Lemma spaced_filter d p buffer :
  (0 <= d)%Z -> spaced d buffer -> spaced d (filter p buffer).
Proof.
  intros D. induction buffer as [|a rest IH]; intros S; [exact I|].
  pose proof (spaced_head d a rest D S) as H.
  specialize (IH (spaced_tail d a rest S)).
  simpl. destruct (p a); [|exact IH].
  apply spaced_cons; [|exact IH].
  apply Forall_forall. intros b Hb. apply filter_In in Hb as [Hb _].
  rewrite Forall_forall in H. apply H, Hb.
Qed.

Lemma last_cons {A : Type} (rest : list A) : forall b a,
  List.last (b :: rest) a = List.last rest b.
Proof.
  induction rest as [|c rest IH]; intros b a; [reflexivity|].
  change (List.last (b :: c :: rest) a) with (List.last (c :: rest) a).
  rewrite (IH c a), (IH c b). reflexivity.
Qed.

(** A spaced list of [n + 1] samples spans at least [n * d] ms. *)
Lemma spaced_span d : (0 <= d)%Z -> forall rest a,
  spaced d (a :: rest) ->
  (timestamp a + d * Z.of_nat (List.length rest)
   <= timestamp (List.last rest a))%Z.
Proof.
  intros D. induction rest as [|b rest IH]; intros a S.
  - simpl. lia.
  - destruct S as [Hab S]. specialize (IH b S).
    rewrite last_cons. simpl List.length. lia.
Qed.

(** X6: a buffer whose samples are stamped more than 25 ms apart, none
    of them after the detector's clock, is never a crash: five samples
    cannot fall within 100 ms. *)
Theorem slow_sampling_never_detects now buffer :
  spaced 26 buffer ->
  Forall (fun r => (timestamp r <= now)%Z) buffer ->
  analyzeBuffer now buffer = false.
Proof.
  intros S F. apply not_true_is_false. intros T.
  apply analyzeBuffer_true_iff in T. destruct T as (_ & T & _).
  pose proof (spaced_filter 26
                (fun reading => (now - timestamp reading <=? SUSTAINED_DURATION_MS)%Z)
                buffer ltac:(lia) S) as SW.
  fold (recentReadings now buffer) in SW.
  assert (W : Forall (fun r => (now - 100 <= timestamp r <= now)%Z)
                     (recentReadings now buffer)).
  { apply Forall_forall. intros r Hr. unfold recentReadings in Hr.
    apply filter_In in Hr as [Hin Hle].
    apply Z.leb_le in Hle. unfold SUSTAINED_DURATION_MS in Hle.
    rewrite Forall_forall in F. specialize (F r Hin). lia. }
  destruct (recentReadings now buffer) as [|a rest]; [simpl in T; lia|].
  pose proof (spaced_span 26 ltac:(lia) rest a SW) as Span.
  assert (La : (now - 100 <= timestamp a)%Z) by (inversion W; lia).
  assert (Ll : (timestamp (List.last rest a) <= now)%Z).
  { rewrite <- (last_cons rest a a).
    rewrite Forall_forall in W.
    assert (In (List.last (a :: rest) a) (a :: rest)) as Hin.
    { destruct (exists_last (l := a :: rest) ltac:(discriminate)) as (l' & x & E).
      rewrite E, last_last. apply in_or_app. right. left. reflexivity. }
    specialize (W _ Hin). lia. }
  simpl in T. lia.
Qed.

Lemma slow_sampling_never_detects_witness :
  analyzeBuffer 330 (bufferAfter slowImpacts) = false.
Proof.
  apply (slow_sampling_never_detects 330 (bufferAfter slowImpacts)).
  - simpl. repeat split; lia.
  - repeat constructor; simpl; lia.
Defined.

End SensorFurther.

(* ================================================================== *)
(** * Further properties of the evidence capture                       *)
(* ================================================================== *)

Section EvidenceFurther.
Import Text JSON EvidenceCapture TrustStore.
Local Open Scope string_scope.

Lemma length_append (s1 s2 : string) :
  String.length (s1 ++ s2) = (String.length s1 + String.length s2)%nat.
Proof. induction s1 as [|c s1 IH]; simpl; [reflexivity|]. rewrite IH. reflexivity. Qed.

Lemma allChars_append p (s1 s2 : string) :
  allChars p (s1 ++ s2) = allChars p s1 && allChars p s2.
Proof.
  induction s1 as [|c s1 IH]; simpl; [reflexivity|].
  rewrite IH, andb_assoc. reflexivity.
Qed.

Lemma digest_length message : List.length (SHA256.digest message) = 32%nat.
Proof.
  unfold SHA256.digest.
  destruct (fold_left SHA256.compress _ _) as [[[[[[[h0 h1] h2] h3] h4] h5] h6] h7].
  reflexivity.
Qed.

Lemma digest_bytes message :
  Forall (fun b => (0 <= b < 256)%Z) (SHA256.digest message).
Proof.
  unfold SHA256.digest.
  destruct (fold_left SHA256.compress _ _) as [[[[[[[h0 h1] h2] h3] h4] h5] h6] h7].
  apply Forall_forall. intros b Hb.
  apply in_flat_map in Hb as (h & _ & Hb).
  unfold SHA256.bigEndian in Hb. apply in_map_iff in Hb as (i & <- & _).
  change 0xff%Z with (Z.ones 8). rewrite Z.land_ones by lia.
  apply Z.mod_pos_bound. reflexivity.
Qed.

Lemma hexDigit_isHex d : (0 <= d < 16)%Z -> isHexDigit (hexDigit d) = true.
Proof.
  intros H.
  assert (E : In d [0; 1; 2; 3; 4; 5; 6; 7; 8; 9; 10; 11; 12; 13; 14; 15]%Z)
    by (simpl; lia).
  simpl in E. repeat (destruct E as [<-|E]; [reflexivity|]). destruct E.
Qed.

Lemma hex2_shape b :
  (0 <= b < 256)%Z ->
  String.length (hex2 b) = 2%nat /\ allChars isHexDigit (hex2 b) = true.
Proof.
  intros H. split; [reflexivity|]. unfold hex2. simpl.
  rewrite !hexDigit_isHex; [reflexivity| |].
  - apply Z.mod_pos_bound. reflexivity.
  - split; [apply Z.div_pos; lia|apply Z.div_lt_upper_bound; lia].
Qed.

Lemma join_hex_shape bytes :
  Forall (fun b => (0 <= b < 256)%Z) bytes ->
  String.length (join EmptyString (map hex2 bytes)) = (2 * List.length bytes)%nat
  /\ allChars isHexDigit (join EmptyString (map hex2 bytes)) = true.
Proof.
  induction 1 as [|b bytes Hb _ [IHl IHc]]; [split; reflexivity|].
  destruct (hex2_shape b Hb) as [Ll Lc].
  destruct bytes as [|b' bytes].
  - simpl map. simpl join. rewrite Ll, Lc. split; reflexivity.
  - change (join EmptyString (map hex2 (b :: b' :: bytes)))
      with (hex2 b ++ join EmptyString (map hex2 (b' :: bytes))).
    split.
    + rewrite length_append, Ll, IHl. simpl. lia.
    + rewrite allChars_append, Lc, IHc. reflexivity.
Qed.

Variable number : Type.
Variable Number_toJSON : number -> string.

(** X7: the hash attached to a packet is either 64 lower-case
    hexadecimal digits or, when the digest is not available, the
    16-character sentinel; the sentinel is therefore never mistaken for a
    digest. *)
Theorem hash_is_digest_or_sentinel (b : Browser number) (data : string) :
  (if subtleCrypto b
   then String.length (generateHash b data) = 64%nat
        /\ allChars isHexDigit (generateHash b data) = true
   else generateHash b data = "hash_unavailable")
  /\ (generateHash b data = "hash_unavailable" <-> subtleCrypto b = false).
Proof.
  unfold generateHash.
  destruct (join_hex_shape _ (digest_bytes (TextEncoder_encode data))) as [L C].
  rewrite digest_length in L.
  destruct (subtleCrypto b).
  - split; [split; assumption|].
    split; [|discriminate]. intros E. rewrite E in L. discriminate L.
  - split; [reflexivity|]. split; reflexivity.
Qed.

(** *** Degraded evidence *)

Lemma Z_toString_head z :
  exists c rest, Z_toString z = String c rest /\ c <> "a"%char.
Proof.
  unfold Z_toString, NilZero.string_of_int.
  destruct (Z.to_int z) as [d|d].
  - destruct d; simpl; eexists; eexists; (split; [reflexivity|discriminate]).
  - eexists; eexists; (split; [reflexivity|discriminate]).
Qed.

Lemma signature_is_not_the_sentinel dataArray :
  join "," (map Z_toString (firstn 32 dataArray)) <> "audio_unavailable".
Proof.
  destruct (firstn 32 dataArray) as [|z rest]; [discriminate|].
  destruct (Z_toString_head z) as (c & tail & E & N).
  destruct rest as [|z' rest]; simpl; rewrite E; simpl; congruence.
Qed.

(** X8: [captureEvidence] never hides a failed acquisition behind a
    plausible value.  In a packet it returns, the audio signature is
    [audio_unavailable] exactly when the microphone failed; the three
    location fields are all [null] exactly when no position was
    obtained, and otherwise all three are present; and the hash is
    [hash_unavailable] exactly when the digest was not available. *)
Theorem degraded_evidence_is_recognisable (b : Browser number)
    (packet : TrustPacket number) :
  captureEvidence Number_toJSON b = Resolved packet ->
  (audioSignature (evidence packet) = "audio_unavailable"
   <-> microphone b = MicrophoneFailed)
  /\ (location packet = nullLocation
      <-> forall lat lon acc, geolocation b <> Position lat lon acc)
  /\ (location packet = nullLocation
      \/ exists lat lon acc,
           location packet = mkLocation (Some lat) (Some lon) (Some acc))
  /\ (hash packet = Some "hash_unavailable" <-> subtleCrypto b = false).
Proof.
  unfold captureEvidence, capturePhoto, getCurrentLocation, generateAudioSignature.
  destruct (camera b) as [| | |dataURL]; try discriminate.
  intros E.
  assert (H : hash packet
              = Some (generateHash b
                        (JSON_stringify Number_toJSON 0
                           (packetWithoutHash packet)))).
  { destruct (geolocation b), (microphone b); injection E as <-; reflexivity. }
  split; [|split; [|split]].
  - destruct (geolocation b), (microphone b) as [|dataArray];
      injection E as <-; simpl; split; intros M;
      try reflexivity; try discriminate M;
      exfalso; exact (signature_is_not_the_sentinel dataArray M).
  - destruct (geolocation b) as [| |lat lon acc], (microphone b);
      injection E as <-; simpl; split; intros M;
      try reflexivity; try discriminate M;
      try (intros lat' lon' acc' N; discriminate N);
      exfalso; eapply M; reflexivity.
  - destruct (geolocation b) as [| |lat lon acc], (microphone b);
      injection E as <-; simpl; try (left; reflexivity);
      right; eexists; eexists; eexists; reflexivity.
  - rewrite H.
    destruct (hash_is_digest_or_sentinel b
                (JSON_stringify Number_toJSON 0 (packetWithoutHash packet)))
      as [_ [I1 I2]].
    split; intros M.
    + apply I1. injection M as M. exact M.
    + f_equal. apply I2, M.
Qed.

(** *** The stored text *)

Lemma append_assoc (a b c : string) : (a ++ b) ++ c = a ++ (b ++ c).
Proof. induction a as [|x a IH]; simpl; [reflexivity|]. rewrite IH. reflexivity. Qed.

Lemma join_snoc separator first rest last :
  join separator ((first :: rest) ++ [last])
  = join separator (first :: rest) ++ separator ++ last.
Proof.
  revert first. induction rest as [|x rest IH]; intros first; [reflexivity|].
  change (join separator ((first :: x :: rest) ++ [last]))
    with (first ++ separator ++ join separator ((x :: rest) ++ [last])).
  rewrite IH.
  change (join separator (first :: x :: rest))
    with (first ++ separator ++ join separator (x :: rest)).
  rewrite !append_assoc. reflexivity.
Qed.

Lemma members_app gap indent (ps qs : list (string * JSValue number)) :
  JSONNotions.members Number_toJSON gap indent (ps ++ qs)%list
  = (JSONNotions.members Number_toJSON gap indent ps
     ++ JSONNotions.members Number_toJSON gap indent qs)%list.
Proof.
  induction ps as [|[key v] ps IH]; simpl; [reflexivity|].
  destruct (SerializeJSONProperty Number_toJSON gap indent v); rewrite IH;
    reflexivity.
Qed.

Lemma SerializeJSONProperty_object gap indent properties :
  SerializeJSONProperty Number_toJSON gap indent (JSObject properties)
  = Some (wrapObject gap (indent ++ gap) indent
            (JSONNotions.members Number_toJSON gap (indent ++ gap) properties)).
Proof.
  simpl. do 2 f_equal.
  induction properties as [|[key v] properties IH]; [reflexivity|].
  simpl. rewrite IH. reflexivity.
Qed.

(** X9: the text kept and exported for a sealed packet is the text
    that was hashed with one more member, the hash, before the closing
    brace: cutting [,"hash":"..."] out of it gives back the hashed
    text. *)
Theorem stored_text_is_hashed_text_plus_hash (b : Browser number)
    (u : TrustPacket number) :
  hash u = None ->
  exists body h,
    hash (seal Number_toJSON b u) = Some h
    /\ h = generateHash b ("{" ++ body ++ "}")
    /\ JSON_stringify Number_toJSON 0 u = "{" ++ body ++ "}"
    /\ JSON_stringify Number_toJSON 0 (seal Number_toJSON b u)
       = "{" ++ body ++ "," ++ QuoteJSONString "hash" ++ ":"
             ++ QuoteJSONString h ++ "}".
Proof.
  intros Hu.
  set (five := [ ("eventId", JSString (eventId u));
                 ("timestamp", JSString (timestamp u));
                 ("location", JSObject
                    [ ("latitude", nullable number (latitude (location u)));
                      ("longitude", nullable number (longitude (location u)));
                      ("accuracy", nullable number (accuracy (location u))) ]);
                 ("evidence", JSObject
                    [ ("photo", JSString (photo (evidence u)));
                      ("audioSignature", JSString (audioSignature (evidence u))) ]);
                 ("metadata", JSObject
                    [ ("userAgent", JSString (userAgent (metadata u)));
                      ("deviceInfo", JSString (deviceInfo (metadata u)));
                      ("captureDelay", JSInteger (captureDelay (metadata u))) ])
               ] : list (string * JSValue number)).
  assert (Eu : toObject u = JSObject (five ++ [("hash", JSUndefined)])%list)
    by (unfold toObject; rewrite Hu; reflexivity).
  assert (Es : forall h, toObject (mkTrustPacket (eventId u) (timestamp u)
                                     (location u) (evidence u) (metadata u) (Some h))
                         = JSObject (five ++ [("hash", JSString h)])%list)
    by reflexivity.
  destruct (JSONNotions.members Number_toJSON EmptyString EmptyString five)
    as [|m1 rest] eqn:M; [discriminate M|].
  exists (join "," (m1 :: rest)).
  assert (T : JSON_stringify Number_toJSON 0 u = "{" ++ join "," (m1 :: rest) ++ "}").
  { unfold JSON_stringify, stringify. rewrite Eu, SerializeJSONProperty_object.
    simpl spaces. simpl (EmptyString ++ EmptyString).
    rewrite members_app, M. simpl JSONNotions.members.
    rewrite app_nil_r. reflexivity. }
  eexists. split; [reflexivity|]. split; [|split].
  - rewrite <- T. reflexivity.
  - exact T.
  - unfold seal. unfold JSON_stringify at 1. unfold stringify.
    rewrite Es, SerializeJSONProperty_object.
    simpl spaces. simpl (EmptyString ++ EmptyString).
    rewrite members_app, M.
    change (JSONNotions.members Number_toJSON EmptyString EmptyString
              [("hash", JSString ?h)])
      with [member EmptyString "hash" (QuoteJSONString h)].
    unfold wrapObject. simpl app. cbn [isEmpty].
    change (m1 :: (rest ++ [?x])%list) with ((m1 :: rest) ++ [x])%list.
    rewrite join_snoc. unfold member. cbn [isEmpty].
    rewrite !append_assoc. reflexivity.
Qed.

Lemma getItem_removeItem key other store :
  other <> key -> getItem other (removeItem key store) = getItem other store.
Proof.
  intros N. induction store as [|[k v] store IH]; [reflexivity|].
  simpl. destruct (String.eqb_spec k key) as [->|Nk]; simpl.
  - destruct (String.eqb_spec key other) as [E|_]; [congruence|exact IH].
  - destruct (k =? other)%string; [reflexivity|exact IH].
Qed.

Lemma getItem_setItem accepts key value store store' :
  setItem accepts key value store = Some store' ->
  getItem key store' = Some value
  /\ forall other, other <> key -> getItem other store' = getItem other store.
Proof.
  unfold setItem. destruct (accepts store key value); [|discriminate].
  intros [= <-]. simpl. rewrite String.eqb_refl. split; [reflexivity|].
  intros other N. destruct (String.eqb_spec key other) as [E|_]; [congruence|].
  apply getItem_removeItem, N.
Qed.

(** X10: [saveTrustPacket] touches no other key.  When the browser takes
    both writes, the packet text and its hash read back; when it refuses
    the first, nothing changes; when it refuses only the second, the new
    packet text is stored beside whatever hash was stored before. *)
Theorem saveTrustPacket_entries accepts (packet : TrustPacket number) store :
  let text := JSON_stringify Number_toJSON 0 packet in
  let hashText := match hash packet with Some h => h | None => EmptyString end in
  let store' := saveTrustPacket Number_toJSON accepts packet store in
  (forall key, key <> "boda_trust_packet" -> key <> "boda_trust_hash" ->
               getItem key store' = getItem key store)
  /\ match setItem accepts "boda_trust_packet" text store with
     | None => store' = store
     | Some store1 =>
         getItem "boda_trust_packet" store' = Some text
         /\ match setItem accepts "boda_trust_hash" hashText store1 with
            | None => getItem "boda_trust_hash" store'
                      = getItem "boda_trust_hash" store
            | Some _ => getItem "boda_trust_hash" store' = Some hashText
            end
     end.
Proof.
  cbv zeta. unfold saveTrustPacket.
  destruct (setItem accepts "boda_trust_packet" _ store) as [store1|] eqn:W1.
  - destruct (getItem_setItem _ _ _ _ _ W1) as [G1 O1].
    destruct (setItem accepts "boda_trust_hash" _ store1) as [store2|] eqn:W2.
    + destruct (getItem_setItem _ _ _ _ _ W2) as [G2 O2].
      split; [|split].
      * intros key N1 N2. rewrite (O2 key N2). apply O1, N1.
      * rewrite O2 by discriminate. exact G1.
      * exact G2.
    + split; [|split].
      * intros key N1 _. apply O1, N1.
      * exact G1.
      * apply O1. discriminate.
  - split; reflexivity.
Qed.

End EvidenceFurther.

Section EvidenceFurtherExamples.
Import Text JSON EvidenceCapture TrustStore.
Local Open Scope string_scope.

Lemma degraded_evidence_is_recognisable_witness :
  audioSignature (evidence (seal Z_toString (cameraOnly true) unsealedExample))
  = "audio_unavailable"
  <-> microphone (cameraOnly true) = MicrophoneFailed.
Proof.
  destruct (degraded_evidence_is_recognisable Z Z_toString (cameraOnly true)
              (seal Z_toString (cameraOnly true) unsealedExample))
    as (A & _); [reflexivity|exact A].
Defined.

Lemma stored_text_is_hashed_text_plus_hash_witness :
  exists body h,
    hash (seal Z_toString (cameraOnly true) unsealedExample) = Some h
    /\ h = generateHash (cameraOnly true) ("{" ++ body ++ "}")
    /\ JSON_stringify Z_toString 0 unsealedExample = "{" ++ body ++ "}"
    /\ JSON_stringify Z_toString 0 (seal Z_toString (cameraOnly true) unsealedExample)
       = "{" ++ body ++ "," ++ QuoteJSONString "hash" ++ ":"
             ++ QuoteJSONString h ++ "}".
Proof.
  apply (stored_text_is_hashed_text_plus_hash Z Z_toString (cameraOnly true)
           unsealedExample).
  reflexivity.
Defined.

Lemma saveTrustPacket_entries_witness :
  getItem "boda_offline_queue"
    (saveTrustPacket Z_toString roomy unsealedExample
       [("boda_offline_queue", "[]")])
  = getItem "boda_offline_queue" [("boda_offline_queue", "[]")].
Proof.
  apply (proj1 (saveTrustPacket_entries Z Z_toString roomy unsealedExample
                  [("boda_offline_queue", "[]")])); discriminate.
Defined.

End EvidenceFurtherExamples.

(* ================================================================== *)
(** * Identifiers                                                      *)
(* ================================================================== *)

Section Identifiers.
Import Text.
Local Open Scope string_scope.

Lemma string_of_uint_digits d :
  TrustStore.allChars TrustStore.notUnderscore (NilEmpty.string_of_uint d) = true.
Proof. induction d; simpl; try rewrite IHd; reflexivity. Qed.

Lemma Z_toString_no_underscore z :
  TrustStore.allChars TrustStore.notUnderscore (Z_toString z) = true.
Proof.
  unfold Z_toString, NilZero.string_of_int, NilZero.string_of_uint.
  destruct (Z.to_int z) as [d|d].
  - destruct d; try reflexivity; apply (string_of_uint_digits (_ d)).
  - simpl. destruct d; try reflexivity; apply (string_of_uint_digits (_ d)).
Qed.

Lemma Z_toString_inj a b : Z_toString a = Z_toString b -> a = b.
Proof.
  unfold Z_toString. intros E. apply DecimalZ.to_int_inj.
  assert (N : forall z, Z.to_int z <> Decimal.Pos Decimal.Nil
                        /\ Z.to_int z <> Decimal.Neg Decimal.Nil).
  { intros [|p|p]; simpl; split; try discriminate;
      intros [= H]; exact (DecimalPos.Unsigned.to_uint_nonnil p H). }
  pose proof (NilZero.isi (Z.to_int a) (proj1 (N a)) (proj2 (N a))) as Ia.
  pose proof (NilZero.isi (Z.to_int b) (proj1 (N b)) (proj2 (N b))) as Ib.
  rewrite E, Ib in Ia. injection Ia as Ia. symmetry. exact Ia.
Qed.

(** Two texts cut at their first underscore. *)
Lemma cut_at_underscore d1 : forall d2 s1 s2,
  TrustStore.allChars TrustStore.notUnderscore d1 = true ->
  TrustStore.allChars TrustStore.notUnderscore d2 = true ->
  d1 ++ "_" ++ s1 = d2 ++ "_" ++ s2 -> d1 = d2 /\ s1 = s2.
Proof.
  induction d1 as [|c d1 IH]; intros [|c' d2] s1 s2 H1 H2 E; simpl in *.
  - injection E as E. split; [reflexivity|exact E].
  - injection E as <- _. discriminate H2.
  - injection E as -> _. discriminate H1.
  - injection E as <- E.
    apply andb_prop in H1 as [_ H1]. apply andb_prop in H2 as [_ H2].
    destruct (IH d2 s1 s2 H1 H2 E) as [-> ->]. split; reflexivity.
Qed.

Lemma stamped_inj t1 t2 s1 s2 :
  Z_toString t1 ++ "_" ++ s1 = Z_toString t2 ++ "_" ++ s2 ->
  t1 = t2 /\ s1 = s2.
Proof.
  intros E.
  destruct (cut_at_underscore _ _ _ _ (Z_toString_no_underscore t1)
              (Z_toString_no_underscore t2) E) as [Et Es].
  split; [apply Z_toString_inj, Et|exact Es].
Qed.

(** X11: event identifiers are distinct as soon as the clock or the
    random suffix differ. *)
Theorem event_ids_are_distinct (number : Type)
    (b1 b2 : EvidenceCapture.Browser number) :
  EvidenceCapture.generateEventId b1 = EvidenceCapture.generateEventId b2 <->
  EvidenceCapture.eventTime number b1 = EvidenceCapture.eventTime number b2
  /\ EvidenceCapture.randomSuffix number b1 = EvidenceCapture.randomSuffix number b2.
Proof.
  unfold EvidenceCapture.generateEventId. split.
  - intros E. simpl in E. injection E as E. apply stamped_inj, E.
  - intros [-> ->]. reflexivity.
Qed.

(** X12: queue identifiers tell their items apart: two items added with
    different types, clock values or suffixes get different ids, and an
    item queued by [sendEmergencySMS] never has an id given by
    [addToQueue]. *)
Theorem queue_ids_are_distinct t1 now1 s1 d1 st1 :
  (forall t2 now2 s2 d2 st2,
     fst (OfflineQueue.addToQueue now1 s1 t1 d1 st1)
     = fst (OfflineQueue.addToQueue now2 s2 t2 d2 st2)
     <-> t1 = t2 /\ now1 = now2 /\ s1 = s2)
  /\ (forall net d st item,
        In item (OfflineQueue.getQueue (snd (Dispatch.sendEmergencySMS net d st))) ->
        ~ In item (OfflineQueue.getQueue st) ->
        OfflineQueue.id item <> fst (OfflineQueue.addToQueue now1 s1 t1 d1 st1)).
Proof.
  split.
  - intros t2 now2 s2 d2 st2. simpl. split.
    + destruct t1, t2; simpl; intros E; try discriminate E;
        injection E as E; apply stamped_inj in E; tauto.
    + intros (-> & -> & ->). reflexivity.
  - intros net d st item Hin Hold. unfold Dispatch.sendEmergencySMS in Hin.
    destruct (Dispatch.onLine net); simpl in Hin.
    + exfalso. apply Hold.
      destruct (Dispatch.hasSession net); simpl in Hin; [|exact Hin].
      destruct (Dispatch.invokeError net); exact Hin.
    + apply in_app_or in Hin as [Hin|[<-|[]]]; [contradiction|].
      destruct t1; simpl; discriminate.
Qed.

Lemma queue_ids_are_distinct_witness :
  fst (OfflineQueue.addToQueue 1700000000000 "k3j9x0q2a"
         OfflineQueue.emergency_sms "first" None)
  = fst (OfflineQueue.addToQueue 1700000000000 "k3j9x0q2b"
           OfflineQueue.emergency_sms "second" None)
  <-> OfflineQueue.emergency_sms = OfflineQueue.emergency_sms
      /\ 1700000000000%Z = 1700000000000%Z /\ "k3j9x0q2a" = "k3j9x0q2b".
Proof.
  apply (proj1 (queue_ids_are_distinct OfflineQueue.emergency_sms 1700000000000
                  "k3j9x0q2a" "first" None)).
Defined.

End Identifiers.

(* ================================================================== *)
(** * The drain with [sendEmergencySMS] as its dispatch                *)
(* ================================================================== *)

Section DispatchFacts.
Import OfflineQueue Dispatch.

Lemma processItemSending_online net send stored d item :
  onLine (net item) = true ->
  send item = resolves (net item) ->
  processItemSending net (mkSending stored d) item
  = mkSending stored (processItem send d item).
Proof.
  intros On S. unfold processItemSending, processItem, sendEmergencySMS.
  cbv zeta. rewrite On, S. unfold resolves. simpl.
  destruct (type item); [|reflexivity].
  destruct (hasSession (net item)), (invokeError (net item)); simpl;
    try reflexivity;
    match goal with
    | |- context [if ?c then _ else _] => destruct c; reflexivity
    end.
Qed.

Lemma fold_processItemSending_online net send queue : forall stored d,
  (forall item, In item queue ->
                onLine (net item) = true /\ send item = resolves (net item)) ->
  fold_left (processItemSending net) queue (mkSending stored d)
  = mkSending stored (fold_left (processItem send) queue d).
Proof.
  induction queue as [|item queue IH]; intros stored d H; [reflexivity|].
  simpl. destruct (H item (or_introl eq_refl)) as [On S].
  rewrite (processItemSending_online net send stored d item On S).
  apply IH. intros x Hx. apply H. right. exact Hx.
Qed.

(** X13: as long as the browser stays online, the drain with the real
    [sendEmergencySMS] is the drain in which a dispatch just resolves or
    throws: it resolves when there is a session and [functions.invoke]
    reports no error. *)
Theorem drain_while_online net storage :
  (forall item, In item (getQueue storage) -> onLine (net item) = true) ->
  processQueueSending true net storage
  = processQueue true (fun item => resolves (net item)) storage.
Proof.
  intros H. unfold processQueueSending, processQueue. simpl.
  destruct (getQueue storage) as [|x queue] eqn:Q; [reflexivity|].
  rewrite (fold_processItemSending_online net (fun item => resolves (net item))).
  - simpl. destruct (processedIds _); reflexivity.
  - intros item Hin. split; [apply H, Hin|reflexivity].
Qed.

Lemma drain_while_online_witness :
  processQueueSending true (fun _ => upAt 1700000005000) (Some [queuedSMS])
  = processQueue true (fun _ => true) (Some [queuedSMS]).
Proof.
  apply (drain_while_online (fun _ => upAt 1700000005000) (Some [queuedSMS])).
  intros item _. reflexivity.
Defined.

Lemma processItemSending_shape net s item :
  map id (items (drain (processItemSending net s item)))
  = (map id (items (drain s)) ++ [id item])%list
  /\ (forall i, In i (processedIds (drain s)) ->
                In i (processedIds (drain (processItemSending net s item))))
  /\ (forall e, In e (log (drain s)) ->
                In e (log (drain (processItemSending net s item))))
  /\ (type item = emergency_sms -> onLine (net item) = false ->
      In (id item) (processedIds (drain (processItemSending net s item)))
      /\ In (SentSMS (id item)) (log (drain (processItemSending net s item)))).
Proof.
  unfold processItemSending, sendEmergencySMS. cbv zeta.
  destruct (type item).
  - destruct (onLine (net item)); simpl.
    + destruct (hasSession (net item)); simpl;
        [destruct (invokeError (net item)); simpl|];
        try match goal with
            | |- context [if ?c then _ else _] => destruct c
            end;
        simpl; rewrite map_app; simpl;
        (split; [reflexivity|]);
        (split; [intros i Hi; try apply in_or_app; auto|]);
        (split; [intros e He; apply in_or_app; auto|]);
        intros _ Off; discriminate Off.
    + rewrite map_app. simpl.
      split; [reflexivity|].
      split; [intros i Hi; apply in_or_app; auto|].
      split; [intros e He; apply in_or_app; auto|].
      intros _ _. split; apply in_or_app; right; simpl; auto.
  - simpl. rewrite map_app. simpl.
    split; [reflexivity|].
    split; [intros i Hi; apply in_or_app; auto|].
    split; [intros e He; apply in_or_app; auto|].
    intros T. discriminate T.
Qed.

Lemma fold_processItemSending_shape net queue : forall s,
  map id (items (drain (fold_left (processItemSending net) queue s)))
  = (map id (items (drain s)) ++ map id queue)%list
  /\ (forall i, In i (processedIds (drain s)) ->
                In i (processedIds (drain (fold_left (processItemSending net) queue s))))
  /\ (forall e, In e (log (drain s)) ->
                In e (log (drain (fold_left (processItemSending net) queue s))))
  /\ (forall item, In item queue ->
        type item = emergency_sms -> onLine (net item) = false ->
        In (id item) (processedIds (drain (fold_left (processItemSending net) queue s)))
        /\ In (SentSMS (id item))
              (log (drain (fold_left (processItemSending net) queue s)))).
Proof.
  induction queue as [|x queue IH]; intros s; simpl.
  - rewrite app_nil_r.
    split; [reflexivity|]. split; [auto|]. split; [auto|].
    intros item0 F. destruct F.
  - destruct (IH (processItemSending net s x)) as (I1 & I2 & I3 & I4).
    destruct (processItemSending_shape net s x) as (P1 & P2 & P3 & P4).
    split; [|split; [|split]].
    + rewrite I1, P1, <- app_assoc. reflexivity.
    + auto.
    + auto.
    + intros item [->|Hin] T Off.
      * destruct (P4 T Off) as [Pa Pb]. split; auto.
      * apply I4; assumption.
Qed.

(** X14: if the connection drops after [processQueue] has started, the
    SMS whose dispatch meets the outage is reported as sent and leaves
    the queue for good: [sendEmergencySMS] queues a copy, and the final
    write of the drain overwrites the queue with the items it had read
    at the start, minus the processed ones. *)
Theorem alert_lost_when_connection_drops net queue item :
  In item queue ->
  type item = emergency_sms ->
  onLine (net item) = false ->
  fst (sendEmergencySMS (net item) (data item) (Some queue)) = Queued
  /\ In (SentSMS (id item)) (snd (processQueueSending true net (Some queue)))
  /\ forall x,
       In x (getQueue (fst (processQueueSending true net (Some queue)))) ->
       In (id x) (map id queue) /\ id x <> id item.
Proof.
  intros Hin T Off.
  split; [unfold sendEmergencySMS; rewrite Off; reflexivity|].
  destruct (fold_processItemSending_shape net queue
              (mkSending (Some queue) (mkDrain [] [] [])))
    as (S1 & _ & _ & S4).
  destruct (S4 item Hin T Off) as [P L].
  assert (R : processQueueSending true net (Some queue)
              = (Some (filter
                         (fun x => negb (includes
                                           (processedIds
                                              (drain (fold_left (processItemSending net) queue
                                                        (mkSending (Some queue) (mkDrain [] [] [])))))
                                           (id x)))
                         (items (drain (fold_left (processItemSending net) queue
                                          (mkSending (Some queue) (mkDrain [] [] [])))))),
                 log (drain (fold_left (processItemSending net) queue
                               (mkSending (Some queue) (mkDrain [] [] [])))))).
  { unfold processQueueSending. cbn [negb getQueue].
    destruct queue as [|q0 queue']; [destruct Hin|].
    destruct (processedIds _) as [|i ids]; [destruct P|reflexivity]. }
  rewrite R. cbn [fst snd getQueue]. split; [exact L|].
  intros x Hx. apply filter_In in Hx as [Hx Hn]. split.
  - pose proof (in_map id _ _ Hx) as Hm. rewrite S1 in Hm. exact Hm.
  - intros Eq. rewrite Eq, (includes_In _ _ P) in Hn. discriminate Hn.
Qed.

Lemma alert_lost_when_connection_drops_witness :
  In (SentSMS (id queuedSMS))
     (snd (processQueueSending true (fun _ => offlineAt 1700000005000)
             (Some [queuedSMS])))
  /\ getQueue (fst (processQueueSending true (fun _ => offlineAt 1700000005000)
                      (Some [queuedSMS]))) = [].
Proof.
  split; [|reflexivity].
  apply (alert_lost_when_connection_drops
           (fun _ => offlineAt 1700000005000) [queuedSMS] queuedSMS);
    [left; reflexivity|reflexivity|reflexivity].
Defined.

(** X15: an SMS sent while offline is not sent but queued, last in the
    queue, with retry count 0, and the call resolves; the next drain
    that finds the browser online dispatches it. *)
Theorem offline_sms_is_queued_then_dispatched net data storage send :
  onLine net = false ->
  exists queued,
    sendEmergencySMS net data storage
    = (Queued, Some (getQueue storage ++ [queued])%list)
    /\ type queued = emergency_sms
    /\ OfflineQueue.data queued = data
    /\ retryCount queued = 0%nat
    /\ In (Dispatched (id queued))
          (snd (processQueue true send (snd (sendEmergencySMS net data storage)))).
Proof.
  intros Off. unfold sendEmergencySMS. rewrite Off. simpl.
  eexists. split; [reflexivity|]. repeat split.
  match goal with
  | |- In (Dispatched (id ?q)) _ =>
      apply (queued_item_is_attempted send _ q)
  end.
  simpl. apply in_or_app. right. left. reflexivity.
Qed.

Lemma offline_sms_is_queued_then_dispatched_witness :
  exists queued,
    sendEmergencySMS (offlineAt 1700000005000) "bodabox_1700000001651_k3j9x0q2a"%string None
    = (Queued, Some (getQueue None ++ [queued])%list)
    /\ type queued = emergency_sms
    /\ OfflineQueue.data queued = "bodabox_1700000001651_k3j9x0q2a"%string
    /\ retryCount queued = 0%nat
    /\ In (Dispatched (id queued))
          (snd (processQueue true alwaysThrows
                  (snd (sendEmergencySMS (offlineAt 1700000005000)
                          "bodabox_1700000001651_k3j9x0q2a"%string None)))).
Proof.
  apply (offline_sms_is_queued_then_dispatched (offlineAt 1700000005000)
           "bodabox_1700000001651_k3j9x0q2a"%string None alwaysThrows).
  reflexivity.
Defined.

End DispatchFacts.

(* ================================================================== *)
(** * Further properties of the offline queue                          *)
(* ================================================================== *)

Section QueueFurther.
Import OfflineQueue QueueNotions.

Lemma processItem_closed send d item :
  items (processItem send d item) = (items d ++ [touched send item])%list
  /\ processedIds (processItem send d item)
     = (processedIds d ++ (if processed send item then [id item] else []))%list
  /\ filter isAttempt (log (processItem send d item))
     = (filter isAttempt (log d) ++ [attempt item])%list.
Proof.
  unfold processItem, touched, processed, succeeds, attempt. cbv zeta.
  destruct (type item).
  - destruct (send item); cbn [items processedIds log orb].
    + repeat split; try reflexivity. apply (filter_app isAttempt (log d)).
    + cbn [retryCount]. destruct (3 <=? retryCount item + 1)%nat;
        cbn [items processedIds log];
        rewrite ?app_nil_r; repeat split; try reflexivity;
        apply (filter_app isAttempt (log d)).
  - cbn [items processedIds log orb].
    repeat split; try reflexivity. apply (filter_app isAttempt (log d)).
Qed.

Lemma fold_processItem_closed send queue : forall d,
  items (fold_left (processItem send) queue d)
  = (items d ++ map (touched send) queue)%list
  /\ processedIds (fold_left (processItem send) queue d)
     = (processedIds d
        ++ flat_map (fun item => if processed send item then [id item] else [])
                    queue)%list
  /\ filter isAttempt (log (fold_left (processItem send) queue d))
     = (filter isAttempt (log d) ++ map attempt queue)%list.
Proof.
  induction queue as [|item queue IH]; intros d; simpl.
  - rewrite !app_nil_r. repeat split; reflexivity.
  - destruct (IH (processItem send d item)) as (I1 & I2 & I3).
    destruct (processItem_closed send d item) as (P1 & P2 & P3).
    rewrite I1, I2, I3, P1, P2, P3, <- !app_assoc. repeat split; reflexivity.
Qed.

(** X16: a drain that finds the browser online takes up every queued
    item exactly once, in the order of the queue. *)
Theorem drain_attempts_in_queue_order send storage :
  filter isAttempt (snd (processQueue true send storage))
  = map attempt (getQueue storage).
Proof.
  unfold processQueue. simpl.
  destruct (getQueue storage) as [|x queue] eqn:Q; [reflexivity|].
  destruct (fold_processItem_closed send (x :: queue) (mkDrain [] [] []))
    as (_ & _ & L).
  destruct (processedIds _); exact L.
Qed.

Lemma filter_map_subsequence {A B : Type} (f : A -> B) (g : A -> A) p (l : list A) :
  (forall x, f (g x) = f x) ->
  subsequence (map f (filter p (map g l))) (map f l).
Proof.
  intros H. induction l as [|x l IH]; simpl; [constructor|].
  destruct (p (g x)); simpl.
  - rewrite H. apply subsequence_keep. exact IH.
  - apply subsequence_skip. exact IH.
Qed.

Lemma subsequence_refl {A : Type} (l : list A) : subsequence l l.
Proof.
  induction l; [apply subsequence_nil|apply subsequence_keep; assumption].
Qed.

Lemma In_processed send queue item :
  In item queue -> processed send item = true ->
  In (id item)
     (flat_map (fun item => if processed send item then [id item] else []) queue).
Proof.
  intros Hin P. apply in_flat_map. exists item. split; [exact Hin|].
  rewrite P. left. reflexivity.
Qed.

(** X17: a drain only removes.  The ids that stay are a subsequence of
    the ids that were queued; once online no [trust_packet] item stays;
    and if every queued retry count was below 3, every stored one still
    is. *)
Theorem drain_only_removes online send storage :
  subsequence (map id (getQueue (fst (processQueue online send storage))))
              (map id (getQueue storage))
  /\ (online = true ->
      Forall (fun item => type item = emergency_sms)
             (getQueue (fst (processQueue online send storage))))
  /\ (Forall (fun item => (retryCount item < 3)%nat) (getQueue storage) ->
      Forall (fun item => (retryCount item < 3)%nat)
             (getQueue (fst (processQueue online send storage)))).
Proof.
  destruct online;
    [|split; [apply subsequence_refl|split; [discriminate|auto]]].
  destruct storage as [[|x queue]|];
    try (split; [apply subsequence_nil|split; [constructor|auto]]).
  unfold processQueue. cbn [negb getQueue].
  destruct (fold_processItem_closed send (x :: queue) (mkDrain [] [] []))
    as (I & P & _).
  cbn [items processedIds app] in I, P.
  destruct (processedIds (fold_left (processItem send) (x :: queue) (mkDrain [] [] [])))
    as [|i ids] eqn:E; cbn [fst getQueue].
  - (* nothing was processed: the storage is not written *)
    split; [apply subsequence_refl|]. split; [|auto].
    intros _. apply Forall_forall. intros item Hin.
    destruct (type item) eqn:T; [reflexivity|].
    assert (Pr : processed send item = true)
      by (unfold processed, succeeds; rewrite T; reflexivity).
    pose proof (In_processed send (x :: queue) item Hin Pr) as C.
    rewrite <- P in C. destruct C.
  - rewrite I. split; [|split].
    + apply filter_map_subsequence.
      intros y. unfold touched. destruct (succeeds send y); reflexivity.
    + intros _. apply Forall_forall. intros y Hy.
      apply filter_In in Hy as [Hy Hn]. apply in_map_iff in Hy as (z & <- & Hz).
      destruct (type z) eqn:T;
        [unfold touched; destruct (succeeds send z); simpl; assumption|].
      assert (Pr : processed send z = true)
        by (unfold processed, succeeds; rewrite T; reflexivity).
      pose proof (In_processed send (x :: queue) z Hz Pr) as C.
      rewrite <- P in C.
      replace (id (touched send z)) with (id z) in Hn
        by (unfold touched; destruct (succeeds send z); reflexivity).
      rewrite (includes_In _ _ C) in Hn. discriminate Hn.
    + intros F. apply Forall_forall. intros y Hy.
      apply filter_In in Hy as [Hy Hn]. apply in_map_iff in Hy as (z & <- & Hz).
      rewrite Forall_forall in F. specialize (F z Hz).
      destruct (Nat.leb_spec 3 (retryCount z + 1)) as [Ge|Lt].
      * exfalso.
        assert (Pr : processed send z = true).
        { unfold processed. apply orb_true_iff. right. apply Nat.leb_le, Ge. }
        pose proof (In_processed send (x :: queue) z Hz Pr) as C.
        rewrite <- P in C.
        replace (id (touched send z)) with (id z) in Hn
          by (unfold touched; destruct (succeeds send z); reflexivity).
        rewrite (includes_In _ _ C) in Hn. discriminate Hn.
      * unfold touched. destruct (succeeds send z); simpl; lia.
Qed.

Lemma includes_processed send queue item :
  NoDup (map id queue) -> In item queue ->
  includes (flat_map (fun item => if processed send item then [id item] else [])
                     queue) (id item)
  = processed send item.
Proof.
  intros N Hin. destruct (processed send item) eqn:P.
  - apply includes_In, In_processed; assumption.
  - apply not_true_is_false. intros C. unfold includes in C.
    apply existsb_exists in C as (i & Hi & E).
    apply String.eqb_eq in E. subst i.
    apply in_flat_map in Hi as (w & Hw & Hi).
    destruct (processed send w) eqn:Pw; [|destruct Hi].
    destruct Hi as [Hi|[]].
    assert (w = item); [|congruence].
    clear - N Hin Hw Hi. induction queue as [|q queue IH]; [destruct Hin|].
    simpl in N. inversion N as [|? ? Nq Nrest]; subst.
    destruct Hin as [->|Hin], Hw as [->|Hw]; try reflexivity.
    + exfalso. apply Nq. rewrite <- Hi. apply in_map, Hw.
    + exfalso. apply Nq. rewrite Hi. apply in_map, Hin.
    + apply IH; assumption.
Qed.

(** X18: with distinct ids, a drain that processes at least one item
    stores exactly the items it did not process, each with one more
    retry counted; a drain that processes none does not write the queue,
    so the retries it counted are not stored. *)
Theorem drain_stores_retries_only_with_a_removal send queue :
  NoDup (map id queue) ->
  fst (processQueue true send (Some queue))
  = Some (if existsb (processed send) queue
          then map retried (filter (fun item => negb (processed send item)) queue)
          else queue).
Proof.
  intros N. destruct queue as [|x queue'] eqn:Q; [reflexivity|].
  rewrite <- Q in *.
  assert (R : processQueue true send (Some queue)
              = match processedIds (fold_left (processItem send) queue
                                      (mkDrain [] [] [])) with
                | [] => (Some queue,
                         log (fold_left (processItem send) queue (mkDrain [] [] [])))
                | _ :: _ =>
                    (Some (filter
                             (fun item =>
                                negb (includes
                                        (processedIds
                                           (fold_left (processItem send) queue
                                              (mkDrain [] [] [])))
                                        (id item)))
                             (items (fold_left (processItem send) queue
                                       (mkDrain [] [] [])))),
                     log (fold_left (processItem send) queue (mkDrain [] [] [])))
                end)
    by (rewrite Q; reflexivity).
  rewrite R. clear R Q x queue'.
  destruct (fold_processItem_closed send queue (mkDrain [] [] [])) as (I & P & _).
  cbn [items processedIds app] in I, P.
  assert (Ex : existsb (processed send) queue = true
               <-> flat_map (fun item => if processed send item then [id item] else [])
                            queue <> []).
  { clear. induction queue as [|q queue IH]; simpl.
    - split; [discriminate|congruence].
    - destruct (processed send q); simpl; [split; [discriminate|reflexivity]|exact IH]. }
  destruct (processedIds (fold_left (processItem send) queue (mkDrain [] [] [])))
    as [|i ids] eqn:E; cbn [fst].
  - destruct (existsb (processed send) queue) eqn:B; [|reflexivity].
    exfalso. apply Ex; [reflexivity|]. symmetry. exact P.
  - replace (existsb (processed send) queue) with true
      by (symmetry; apply Ex; rewrite <- P; discriminate).
    f_equal. rewrite I, P. clear - N.
    assert (G : forall l, (forall item, In item l -> In item queue) ->
                filter (fun item =>
                          negb (includes
                                  (flat_map (fun item => if processed send item
                                                         then [id item] else [])
                                            queue) (id item)))
                       (map (touched send) l)
                = map retried (filter (fun item => negb (processed send item)) l)).
    { induction l as [|z l IH]; intros Sub; [reflexivity|].
      simpl. replace (id (touched send z)) with (id z)
        by (unfold touched; destruct (succeeds send z); reflexivity).
      rewrite (includes_processed send queue z N (Sub z (or_introl eq_refl))).
      rewrite IH by (intros w Hw; apply Sub; right; exact Hw).
      destruct (processed send z) eqn:Pz; simpl; [reflexivity|].
      f_equal. unfold touched, processed in *.
      destruct (succeeds send z); [discriminate Pz|reflexivity]. }
    apply G. auto.
Qed.

Lemma drain_stores_retries_only_with_a_removal_witness :
  fst (processQueue true alwaysThrows
         (Some [queuedSMS;
                mkItem "trust_packet_1700000002000_a1b2c3d4e" trust_packet
                       "bodabox_1700000001651_k3j9x0q2a"%string 1700000002000 0]))
  = Some [retried queuedSMS].
Proof.
  rewrite drain_stores_retries_only_with_a_removal; [reflexivity|].
  repeat constructor; simpl; intuition discriminate.
Defined.

Lemma drain_only_removes_witness :
  Forall (fun item => (retryCount item < 3)%nat)
         (getQueue (fst (processQueue true alwaysThrows (Some [queuedSMS])))).
Proof.
  apply (proj2 (proj2 (drain_only_removes true alwaysThrows (Some [queuedSMS])))).
  constructor; [simpl; lia|constructor].
Defined.

End QueueFurther.

(* ================================================================== *)
(** * Further properties of the state machine                          *)
(* ================================================================== *)

Section StateMachineFurther.
Import BodaBox BodaNotions.

Lemma step_firingsNeeded a e :
  (firingsNeeded a
   <= firingsNeeded (step a e) + (if isTimer e then 1 else 0))%nat.
Proof.
  destruct a as [st flag cd]. unfold firingsNeeded.
  destruct st, flag, e; simpl; try lia;
    destruct cd as [|[|cd]]; simpl; lia.
Qed.

Lemma steps_firingsNeeded events : forall a,
  (firingsNeeded a
   <= firingsNeeded (steps a events) + List.length (filter isTimer events))%nat.
Proof.
  unfold steps.
  induction events as [|e events IH]; intros a; simpl; [lia|].
  pose proof (step_firingsNeeded a e) as S.
  specialize (IH (step a e)).
  destruct (isTimer e); simpl; lia.
Qed.

(** X19: whatever the user and the sensor do, the application is never
    [TRIGGERED] before the one-second timer of the confirmation screen
    has fired five times. *)
Theorem triggered_needs_five_timer_firings events :
  appState (steps initialApp events) = TRIGGERED ->
  (5 <= List.length (filter isTimer events))%nat.
Proof.
  intros T. pose proof (steps_firingsNeeded events initialApp) as H.
  unfold firingsNeeded in H at 2. rewrite T in H.
  change (firingsNeeded initialApp) with 5%nat in H. lia.
Qed.

Lemma triggered_needs_five_timer_firings_witness :
  (5 <= List.length
          (filter isTimer (EmergencyButton :: CrashDetected :: repeat TimerFired 5)))%nat.
Proof.
  apply triggered_needs_five_timer_firings. reflexivity.
Defined.

End StateMachineFurther.

(* ================================================================== *)
(** * Properties of the SMS edge function                              *)
(* ================================================================== *)

Section EdgeFunctionFacts.
Import Text EdgeFunction.
Local Open Scope string_scope.

Variable number : Type.
Variable Number_toString : number -> string.

Lemma startsWith_append prefix rest :
  startsWith prefix (prefix ++ rest) = Some rest.
Proof.
  induction prefix as [|c prefix IH]; simpl; [destruct rest; reflexivity|].
  rewrite Ascii.eqb_refl. exact IH.
Qed.

Lemma cutFirst_prefix pattern rest : cutFirst pattern (pattern ++ rest) = rest.
Proof.
  destruct (pattern ++ rest) as [|c s] eqn:E;
    pose proof (startsWith_append pattern rest) as S; rewrite E in S;
    simpl; unfold cutFirst; fold cutFirst; rewrite S; reflexivity.
Qed.

Lemma sendTo_contact c text k :
  contact (sendTo c text k) = name k
  /\ phone (sendTo c text k) = phone_number k
  /\ (success (sendTo c text k) = true
      <-> exists sid, twilio number c (phone_number k) text = Accepted sid).
Proof.
  unfold sendTo. destruct (twilio number c (phone_number k) text) as [sid|m|e];
    simpl; repeat split; try discriminate; try (intros [sid' H]; discriminate H).
  intros _. exists sid. reflexivity.
Qed.

(** X20: when the handler answers with a report, the status is 200 and
    the report has one result per emergency contact of the user, in the
    contacts' order, each tried whatever happened to the ones before;
    its [success] flag says that Twilio accepted the message for at
    least one of them, so a 200 answer may report that none was
    reached. *)
Theorem report_covers_every_contact (c : Call number) st ok text results :
  handler Number_toString c = mkResponse st (Report ok text results) ->
  st = 200%Z
  /\ exists header user request contacts,
       authorization number c = Some header
       /\ getUser number c (cutFirst "Bearer " header) = Some user
       /\ json number c = inr request
       /\ contactsOf number c user = Rows contacts
       /\ contacts <> []
       /\ map contact results = map name contacts
       /\ map phone results = map phone_number contacts
       /\ (ok = true <->
           exists k sid,
             In k contacts
             /\ twilio number c (phone_number k)
                       (smsMessage Number_toString c request) = Accepted sid).
Proof.
  unfold handler, failure.
  destruct (method number c =? "OPTIONS"); [discriminate|].
  destruct (authorization number c) as [header|]; [|discriminate].
  destruct (missing (Some header)); [discriminate|].
  destruct (getUser number c (cutFirst "Bearer " header)) as [user|] eqn:U;
    [|discriminate].
  destruct (json number c) as [e|request] eqn:J; [discriminate|].
  destruct (contactsOf number c user) as [m| |[|k0 contacts']] eqn:K;
    try discriminate.
  destruct (missing (twilioAccountSid number c) || missing (twilioAuthToken number c)
            || missing (twilioPhoneNumber number c)); [discriminate|].
  set (contacts := k0 :: contacts').
  set (text0 := smsMessage Number_toString c request).
  intros [= <- <- _ <-]. split; [reflexivity|].
  exists header, user, request, contacts.
  split; [reflexivity|]. split; [exact U|]. split; [reflexivity|].
  split; [exact K|]. split; [discriminate|].
  assert (M : forall l,
             map contact (map (sendTo c text0) l) = map name l
             /\ map phone (map (sendTo c text0) l)
                = map phone_number l
             /\ ((0 <? List.length (filter success
                                      (map (sendTo c text0) l)))%nat
                 = true
                 <-> exists k sid, In k l
                       /\ twilio number c (phone_number k) text0 = Accepted sid)).
  { induction l as [|k l (I1 & I2 & I3)].
    - simpl. repeat split; try discriminate. intros (k & sid & [] & _).
    - destruct (sendTo_contact c text0 k) as (S1 & S2 & S3).
      simpl. rewrite S1, S2, I1, I2. repeat split.
      + destruct (success (sendTo c text0 k)) eqn:Sk.
        * intros _. destruct (proj1 S3 eq_refl) as [sid H].
          exists k, sid. split; [left; reflexivity|exact H].
        * intros H. destruct (proj1 I3 H) as (k' & sid & Hin & Hk).
          exists k', sid. split; [right; exact Hin|exact Hk].
      + intros (k' & sid & [<-|Hin] & Hk).
        * rewrite (proj2 S3 (ex_intro _ sid Hk)). reflexivity.
        * destruct (success (sendTo c text0 k)); [reflexivity|].
          apply I3. exists k', sid. split; assumption. }
  destruct (M contacts) as (M1 & M2 & M3).
  split; [exact M1|]. split; [exact M2|exact M3].
Qed.

(** X21: a request that is not a preflight and carries [Bearer <token>]
    is looked up with [<token>]; if that is no user's token the answer is
    500 [Invalid user token], whatever the body and the contacts. *)
Theorem unknown_bearer_is_refused (c : Call number) token :
  method number c <> "OPTIONS" ->
  authorization number c = Some ("Bearer " ++ token) ->
  getUser number c token = None ->
  handler Number_toString c = mkResponse 500 (Failure "Invalid user token").
Proof.
  intros M A U. unfold handler.
  apply String.eqb_neq in M. rewrite M, A.
  change (missing (Some ("Bearer " ++ token))) with false. cbv iota.
  rewrite (cutFirst_prefix "Bearer " token), U. reflexivity.
Qed.

End EdgeFunctionFacts.

Section EdgeFunctionExamples.
Import Text EdgeFunction EdgeExample.
Local Open Scope string_scope.

Lemma report_covers_every_contact_witness :
  map contact
      [mkResult "Amina" "+254700000001" false "Unknown error";
       mkResult "Otieno" "+254700000002" true "SM2"]
  = map name contacts.
Proof.
  destruct (report_covers_every_contact Z Z_toString (call secondOnly) 200 true
              "SMS sent to 1 of 2 contacts"
              [mkResult "Amina" "+254700000001" false "Unknown error";
               mkResult "Otieno" "+254700000002" true "SM2"])
    as (_ & header & user & request & ks & _ & _ & _ & R & _ & N & _).
  - vm_compute. reflexivity.
  - injection R as <-. exact N.
Defined.

Lemma unknown_bearer_is_refused_witness :
  handler Z_toString
    (mkCall "POST" (Some "Bearer stolen")
            (fun jwt => if String.eqb jwt "eyJhbGciOi" then Some "user-1" else None)
            (inr (mkRequest "Crash detected" None None))
            (fun _ => Rows contacts)
            (Some "AC1") (Some "token") (Some "+15550100")
            secondOnly "14/11/2023, 22:13:21")
  = mkResponse 500 (Failure "Invalid user token").
Proof.
  apply (unknown_bearer_is_refused Z Z_toString _ "stolen");
    [discriminate|reflexivity|reflexivity].
Defined.

End EdgeFunctionExamples.

(* ================================================================== *)
(** * Properties of the client-side validation helpers                 *)
(* ================================================================== *)

Section SecurityValidationFacts.
Import SecurityValidation.
Local Open Scope Z_scope.

Lemma firstn_subsequence {A : Type} n (l : list A) : subsequence (firstn n l) l.
Proof.
  revert n. induction l as [|x l IH]; intros [|n]; simpl;
    try apply subsequence_nil.
  - apply subsequence_skip. apply (IH 0%nat).
  - apply subsequence_keep, IH.
Qed.

Lemma subsequence_trans {A : Type} (l1 l2 l3 : list A) :
  subsequence l1 l2 -> subsequence l2 l3 -> subsequence l1 l3.
Proof.
  intros H12 H23. revert l1 H12.
  induction H23 as [|x l2 l3 _ IH|x l2 l3 _ IH]; intros l1 H12.
  - exact H12.
  - apply subsequence_skip, IH, H12.
  - inversion H12; subst.
    + apply subsequence_skip, IH. assumption.
    + apply subsequence_keep, IH. assumption.
Qed.

Lemma subsequence_In_firstn {A : Type} (x : A) n l :
  In x (firstn n l) -> In x l.
Proof.
  revert n. induction l as [|y l IH]; intros [|n]; simpl; try tauto.
  intros [->|H]; [left; reflexivity|right; apply (IH n), H].
Qed.

Lemma trimStart_subsequence s : subsequence (trimStart s) s.
Proof.
  induction s as [|c s IH]; simpl; [apply subsequence_nil|].
  destruct (isWhiteSpace c); [apply subsequence_skip, IH|apply subsequence_refl].
Qed.

Lemma subsequence_app {A : Type} (l1 l2 m1 m2 : list A) :
  subsequence l1 l2 -> subsequence m1 m2 -> subsequence (l1 ++ m1) (l2 ++ m2).
Proof.
  induction 1; intros M; simpl;
    [exact M|apply subsequence_skip; auto|apply subsequence_keep; auto].
Qed.

Lemma subsequence_rev {A : Type} (l1 l2 : list A) :
  subsequence l1 l2 -> subsequence (rev l1) (rev l2).
Proof.
  induction 1 as [|x l1 l2 _ IH|x l1 l2 _ IH]; simpl.
  - apply subsequence_nil.
  - rewrite <- (app_nil_r (rev l1)). apply subsequence_app; [exact IH|].
    apply subsequence_skip, subsequence_nil.
  - apply subsequence_app; [exact IH|apply subsequence_refl].
Qed.

Lemma trim_subsequence s : subsequence (trim s) s.
Proof.
  unfold trim, trimEnd.
  apply subsequence_trans with (trimStart s); [|apply trimStart_subsequence].
  rewrite <- (rev_involutive (trimStart s)) at 2.
  apply subsequence_rev, trimStart_subsequence.
Qed.

(** X22: whatever the input, the sanitized text holds at most 1000 code
    units, none of them [<], [>], an apostrophe or a quotation mark, and
    it is the input with code units left out: nothing is added, changed
    or reordered. *)
Theorem sanitizeInput_is_safe input :
  (List.length (sanitizeInput input) <= 1000)%nat
  /\ Forall (fun c => c <> lessThan /\ c <> greaterThan
                      /\ c <> apostrophe /\ c <> quotation)
            (sanitizeInput input)
  /\ subsequence (sanitizeInput input) input.
Proof.
  unfold sanitizeInput. split; [apply firstn_le_length|]. split.
  - apply Forall_forall. intros c Hc.
    apply (subsequence_In_firstn c) in Hc.
    unfold removeClass in Hc.
    apply filter_In in Hc as [Hc Q]. apply filter_In in Hc as [_ A].
    unfold lessThan, greaterThan, apostrophe, quotation in *. simpl in Q, A.
    repeat split; intros ->; discriminate.
  - eapply subsequence_trans; [apply firstn_subsequence|].
    eapply subsequence_trans; [apply filter_subsequence|].
    eapply subsequence_trans; [apply filter_subsequence|].
    apply trim_subsequence.
Qed.

Lemma filter_filter_weaker {A : Type} (p q : A -> bool) (l : list A) :
  (forall x, p x = true -> q x = true) ->
  filter p (filter q l) = filter p l.
Proof.
  intros H. induction l as [|x l IH]; [reflexivity|]. simpl.
  destruct (q x) eqn:Q; simpl.
  - rewrite IH. reflexivity.
  - destruct (p x) eqn:P; [rewrite (H x P) in Q; discriminate|exact IH].
Qed.

Lemma store_same key attempts s : store key attempts s key = attempts.
Proof. unfold store. rewrite String.eqb_refl. reflexivity. Qed.

Lemma checks_window key maxAttempts windowMs times : forall s history low,
  StronglySorted Z.le times ->
  Forall (Z.le low) times ->
  (forall now, low <= now ->
     filter (fun t => now - t <? windowMs) (s key)
     = filter (fun t => now - t <? windowMs) history) ->
  forall earlier t later,
    fst (checks times key maxAttempts windowMs s) = earlier ++ t :: later ->
    Z.of_nat (List.length (filter (fun t' => t - t' <? windowMs)
                                  (history ++ earlier))) < maxAttempts.
Proof.
  induction times as [|now rest IH]; intros s history low S L Inv earlier t later E.
  - destruct earlier; discriminate E.
  - inversion S as [|? ? Srest Sle]; subst.
    inversion L as [|? ? Lnow _]; subst.
    simpl in E. unfold checkClientRateLimit in E.
    rewrite (Inv now Lnow) in E.
    destruct (Z.geb_spec
                (Z.of_nat (List.length (filter (fun t' => now - t' <? windowMs) history)))
                maxAttempts) as [Ge|Lt].
    + destruct (checks rest key maxAttempts windowMs s) as [passed s2] eqn:C.
      simpl in E.
      apply (IH s history now Srest Sle) with (later := later);
        [|rewrite C; exact E].
      intros now' Hn. apply Inv. lia.
    + destruct (checks rest key maxAttempts windowMs
                  (store key (filter (fun t' => now - t' <? windowMs) history ++ [now]) s))
        as [passed s2] eqn:C.
      simpl in E. destruct earlier as [|e earlier'].
      * injection E as <- _. rewrite app_nil_r. exact Lt.
      * injection E as <- E.
        replace (history ++ now :: earlier') with ((history ++ [now]) ++ earlier')
          by (rewrite <- app_assoc; reflexivity).
        apply (IH (store key (filter (fun t' => now - t' <? windowMs) history ++ [now]) s)
                  (history ++ [now]) now Srest Sle) with (later := later);
          [|rewrite C; exact E].
        intros now' Hn. rewrite store_same, !filter_app.
        rewrite filter_filter_weaker; [reflexivity|].
        intros x Hx. apply Z.ltb_lt in Hx. apply Z.ltb_lt. lia.
Qed.

(** X23: with a clock that does not run backwards and nothing stored for
    the key at the start, every check that is let through was preceded by
    fewer than [maxAttempts] checks let through within the [windowMs]
    before it. *)
Theorem rate_limit_holds key maxAttempts windowMs times s earlier t later :
  StronglySorted Z.le times ->
  s key = [] ->
  fst (checks times key maxAttempts windowMs s) = earlier ++ t :: later ->
  Z.of_nat (List.length (filter (fun t' => t - t' <? windowMs) earlier))
  < maxAttempts.
Proof.
  intros S E H.
  destruct times as [|t0 rest]; [destruct earlier; discriminate H|].
  apply (checks_window key maxAttempts windowMs (t0 :: rest) s [] t0 S)
    with (later := later); [| |exact H].
  - inversion S; subst. constructor; [lia|]. assumption.
  - intros now _. rewrite E. reflexivity.
Qed.

Lemma rate_limit_holds_witness :
  Z.of_nat (List.length (filter (fun t' => 61000 - t' <? 60000)
                                [0; 1000; 2000; 3000; 4000]))
  < 5.
Proof.
  apply (rate_limit_holds "add_contact" 5 60000
           [0; 1000; 2000; 3000; 4000; 5000; 61000] noAttempts
           [0; 1000; 2000; 3000; 4000] 61000 []).
  - repeat (constructor; [|repeat (constructor; try discriminate)]). constructor.
  - reflexivity.
  - vm_compute. reflexivity.
Defined.

End SecurityValidationFacts.

(* ================================================================== *)
(** * The hashed text fixes the packet                                 *)
(* ================================================================== *)

Section CanonicalFacts.
Import Text JSON EvidenceCapture Canonical.
Local Open Scope string_scope.

Variable number : Type.
Variable Number_toJSON : number -> string.

Lemma string_append_assoc (a b c : string) : (a ++ b) ++ c = a ++ (b ++ c).
Proof. induction a as [|x a IH]; simpl; [reflexivity|]. rewrite IH. reflexivity. Qed.

Lemma stringify_flat (p : TrustPacket number) :
  JSON_stringify Number_toJSON 0 p = flatText Number_toJSON p.
Proof.
  destruct p as [e t [la lo ac] [ph au] [ua di cd] h].
  destruct la, lo, ac, h;
    unfold JSON_stringify, stringify, toObject, flatText, key, hashText,
      nullableText, QuoteJSONString;
    simpl; repeat (progress (rewrite ?string_append_assoc; simpl));
    reflexivity.
Qed.

Lemma string_app_inv_head (a x y : string) : a ++ x = a ++ y -> x = y.
Proof.
  induction a as [|c a IH]; simpl; [auto|]. intros [= H]. apply IH, H.
Qed.

Lemma prefix_related (a : string) : forall b x y,
  a ++ x = b ++ y -> String.prefix a b = true \/ String.prefix b a = true.
Proof.
  induction a as [|c a IH]; intros [|d b] x y E; simpl in *; auto.
  injection E as -> E. destruct (IH b x y E) as [H|H];
    destruct (ascii_dec d d) as [_|N]; try (exfalso; apply N; reflexivity);
    auto.
Qed.

Lemma allAscii_complete c : In c allAscii.
Proof.
  unfold allAscii. rewrite <- (ascii_nat_embedding c).
  apply in_map, in_seq. pose proof (nat_ascii_bounded c). lia.
Qed.

Lemma escapes_are_prefix_free :
  forallb (fun c1 =>
             unrelated (escape c1) quote
             && forallb (fun c2 => Ascii.eqb c1 c2
                                   || unrelated (escape c1) (escape c2))
                        allAscii)
          allAscii = true.
Proof. vm_compute. reflexivity. Qed.

Lemma escapes_checked c1 c2 :
  unrelated (escape c1) quote = true
  /\ (Ascii.eqb c1 c2 || unrelated (escape c1) (escape c2)) = true.
Proof.
  pose proof (proj1 (forallb_forall _ _) escapes_are_prefix_free c1
                (allAscii_complete c1)) as F.
  apply andb_prop in F as [F1 F2]. split; [exact F1|].
  exact (proj1 (forallb_forall _ _) F2 c2 (allAscii_complete c2)).
Qed.

Lemma escape_unrelated c1 c2 x y :
  escape c1 ++ x = escape c2 ++ y -> c1 = c2 /\ x = y.
Proof.
  intros E. assert (c1 = c2) as ->; [|split; [reflexivity|]].
  - destruct (escapes_checked c1 c2) as [_ F].
    apply orb_prop in F as [F|F]; [apply Ascii.eqb_eq, F|].
    unfold unrelated in F. apply negb_true_iff, orb_false_elim in F as [F1 F2].
    destruct (prefix_related _ _ _ _ E) as [P|P]; congruence.
  - apply string_app_inv_head in E. exact E.
Qed.

Lemma escape_is_no_quote c x y : escape c ++ x <> quote ++ y.
Proof.
  intros E. destruct (escapes_checked c c) as [F _].
  unfold unrelated in F. apply negb_true_iff, orb_false_elim in F as [F1 F2].
  destruct (prefix_related _ _ _ _ E) as [P|P]; congruence.
Qed.

Lemma escapeAll_cut s1 : forall s2 x y,
  escapeAll s1 ++ quote ++ x = escapeAll s2 ++ quote ++ y -> s1 = s2 /\ x = y.
Proof.
  induction s1 as [|c1 s1 IH]; intros [|c2 s2] x y E.
  - simpl in E. injection E as E. split; [reflexivity|exact E].
  - exfalso. simpl escapeAll in E. rewrite string_append_assoc in E.
    symmetry in E. exact (escape_is_no_quote _ _ _ E).
  - exfalso. simpl escapeAll in E. rewrite string_append_assoc in E.
    exact (escape_is_no_quote _ _ _ E).
  - simpl escapeAll in E. rewrite !string_append_assoc in E.
    apply escape_unrelated in E as [-> E].
    destruct (IH s2 x y E) as [-> ->]. split; reflexivity.
Qed.

Lemma quote_cut s1 s2 x y :
  QuoteJSONString s1 ++ x = QuoteJSONString s2 ++ y -> s1 = s2 /\ x = y.
Proof.
  unfold QuoteJSONString. simpl. intros [= E].
  rewrite !string_append_assoc in E. apply (escapeAll_cut s1 s2 x y E).
Qed.

(** Two texts cut at the first character outside a class. *)
Lemma cut_at (p : ascii -> bool) (d : ascii) (d1 : string) : forall d2 s1 s2,
  p d = false ->
  TrustStore.allChars p d1 = true -> TrustStore.allChars p d2 = true ->
  d1 ++ String d s1 = d2 ++ String d s2 -> d1 = d2 /\ s1 = s2.
Proof.
  induction d1 as [|c d1 IH]; intros [|c' d2] s1 s2 D H1 H2 E; simpl in *.
  - injection E as E. split; [reflexivity|exact E].
  - injection E as <- _. rewrite D in H2. discriminate H2.
  - injection E as -> _. rewrite D in H1. discriminate H1.
  - injection E as <- E.
    apply andb_prop in H1 as [_ H1]. apply andb_prop in H2 as [_ H2].
    destruct (IH d2 s1 s2 D H1 H2 E) as [-> ->]. split; reflexivity.
Qed.

Lemma string_of_uint_numeric d :
  TrustStore.allChars isNumeric (NilEmpty.string_of_uint d) = true.
Proof. induction d; simpl; try rewrite IHd; reflexivity. Qed.

Lemma Z_toString_numeric z : TrustStore.allChars isNumeric (Z_toString z) = true.
Proof.
  unfold Z_toString, NilZero.string_of_int, NilZero.string_of_uint.
  destruct (Z.to_int z) as [d|d].
  - destruct d; try reflexivity; apply (string_of_uint_numeric (_ d)).
  - simpl. destruct d; try reflexivity; apply (string_of_uint_numeric (_ d)).
Qed.

Hypothesis numbers_are_numeric :
  forall x, TrustStore.allChars isNumeric (Number_toJSON x) = true.
Hypothesis numbers_are_told_apart :
  forall x y, Number_toJSON x = Number_toJSON y -> x = y.

Lemma nullable_cut (d : ascii) v1 v2 x y :
  isNumeric d = false -> d <> "n"%char ->
  nullableText Number_toJSON v1 ++ String d x
  = nullableText Number_toJSON v2 ++ String d y ->
  v1 = v2 /\ x = y.
Proof.
  intros D N E. destruct v1 as [n1|], v2 as [n2|]; simpl in E.
  - destruct (cut_at isNumeric d _ _ _ _ D (numbers_are_numeric n1)
                (numbers_are_numeric n2) E) as [En ->].
    rewrite (numbers_are_told_apart _ _ En). split; reflexivity.
  - exfalso. pose proof (numbers_are_numeric n1) as H.
    destruct (Number_toJSON n1) as [|c s]; simpl in E.
    + injection E as E _. congruence.
    + injection E as -> _. discriminate H.
  - exfalso. pose proof (numbers_are_numeric n2) as H.
    destruct (Number_toJSON n2) as [|c s]; simpl in E.
    + injection E as E _. congruence.
    + injection E as <- _. discriminate H.
  - injection E as E. split; [reflexivity|exact E].
Qed.

Lemma integer_cut z1 z2 x y :
  Z_toString z1 ++ String "}" x = Z_toString z2 ++ String "}" y ->
  z1 = z2 /\ x = y.
Proof.
  intros E.
  destruct (cut_at isNumeric "}" _ _ _ _ eq_refl (Z_toString_numeric z1)
              (Z_toString_numeric z2) E) as [Ez ->].
  split; [apply Z_toString_inj, Ez|reflexivity].
Qed.

Lemma hashText_cut h1 h2 : hashText h1 ++ "}" = hashText h2 ++ "}" -> h1 = h2.
Proof.
  destruct h1 as [d1|], h2 as [d2|]; simpl; intros E;
    try discriminate E; [|reflexivity].
  injection E as E. rewrite ?string_append_assoc in E.
  apply (escapeAll_cut d1 d2 "}" "}") in E as [-> _]. reflexivity.
Qed.

(** X24: the text that is hashed fixes the packet.  Provided numbers
    are rendered with numeric characters only (so none as [null], the
    rendering of [NaN] and the infinities) and different numbers are
    rendered differently, two packets with the same compact JSON text
    are the same packet: no field can be changed without changing the
    hashed text. *)
Theorem hashed_text_fixes_the_packet (p1 p2 : TrustPacket number) :
  JSON_stringify Number_toJSON 0 p1 = JSON_stringify Number_toJSON 0 p2 ->
  p1 = p2.
Proof.
  rewrite !stringify_flat. unfold flatText.
  destruct p1 as [e1 t1 [la1 lo1 ac1] [ph1 au1] [ua1 di1 cd1] h1].
  destruct p2 as [e2 t2 [la2 lo2 ac2] [ph2 au2] [ua2 di2 cd2] h2].
  cbn [eventId timestamp location evidence metadata hash latitude longitude
       accuracy photo audioSignature userAgent deviceInfo captureDelay].
  intros E.
  do 2 apply string_app_inv_head in E. apply quote_cut in E as [-> E].
  do 2 apply string_app_inv_head in E. apply quote_cut in E as [-> E].
  do 4 apply string_app_inv_head in E.
  apply (nullable_cut ",") in E as [-> E]; [|reflexivity|discriminate].
  apply string_app_inv_head in E.
  apply (nullable_cut ",") in E as [-> E]; [|reflexivity|discriminate].
  apply string_app_inv_head in E.
  apply (nullable_cut "}") in E as [-> E]; [|reflexivity|discriminate].
  do 4 apply string_app_inv_head in E. apply quote_cut in E as [-> E].
  do 2 apply string_app_inv_head in E. apply quote_cut in E as [-> E].
  do 5 apply string_app_inv_head in E. apply quote_cut in E as [-> E].
  do 2 apply string_app_inv_head in E. apply quote_cut in E as [-> E].
  do 2 apply string_app_inv_head in E.
  apply integer_cut in E as [-> E].
  apply hashText_cut in E as ->. reflexivity.
Qed.

End CanonicalFacts.

Section CanonicalExamples.
Import Text JSON EvidenceCapture Canonical.
Local Open Scope string_scope.

Lemma Z_numbers_are_numeric :
  forall x, TrustStore.allChars isNumeric (Z_toString x) = true.
Proof. exact Z_toString_numeric. Qed.

Lemma hashed_text_fixes_the_packet_witness :
  packetWithoutHash (seal Z_toString (cameraOnly true) unsealedExample)
  = unsealedExample.
Proof.
  apply (hashed_text_fixes_the_packet Z Z_toString Z_numbers_are_numeric
           Z_toString_inj).
  reflexivity.
Defined.

End CanonicalExamples.

(* ================================================================== *)
(** * The SMS rate limit                                               *)
(* ================================================================== *)

Section SmsRateLimitFacts.
Import SmsRateLimit.
Local Open Scope Z_scope.














(** X26: the limit fails open.  As long as no [insert] or [update] is
    carried out, every request of a user whose row counts fewer than
    five is let through, and the table stays as it was. *)
Theorem failing_writes_disable_the_limiter userId calls table :
  Forall (fun call => write (fst call) <> Answers) calls ->
  (forall limit, table userId = Some limit -> sms_count limit < 5) ->
  requests userId calls table = (map snd calls, table).
Proof.
  intros F C. induction calls as [|[db now] rest IH]; [reflexivity|].
  inversion F as [|? ? W F']; subst. simpl in W.
  assert (E : checkAndUpdateRateLimit db userId now table = (false, table)).
  { unfold checkAndUpdateRateLimit.
    destruct (select db), (table userId) as [limit|] eqn:T, (write db);
      try congruence; try reflexivity;
      repeat match goal with
             | |- context [if ?c then _ else _] => destruct c eqn:?
             end; try reflexivity;
      specialize (C limit eq_refl); exfalso;
      match goal with H : (_ >=? _) = true |- _ => rewrite Z.geb_leb in H; apply Z.leb_le in H end;
      lia. }
  simpl. rewrite E, (IH F'). reflexivity.
Qed.




Lemma failing_writes_disable_the_limiter_witness :
  requests "rider"%string readOnly noRows = ([0; 1000; 2000; 3000], noRows).
Proof.
  apply (failing_writes_disable_the_limiter "rider"%string readOnly noRows).
  - unfold readOnly. repeat constructor; simpl; discriminate.
  - intros limit H. discriminate H.
Defined.

End SmsRateLimitFacts.
